(** * rungroup: a task group sharing one cancellation signal

    Shallow embedding of the two variants of package [rungroup]
    (module [V1]: [github.com/goaux/rungroup], module [V2]:
    [github.com/goaux/rungroup/v2]) and of the small part of the Go
    standard library they are written against ([errors], [context],
    [sync.WaitGroup]) together with [stacktrace.NewError].  The
    packages [goaux/waitgroup] and [goaux/stacktrace] are dependencies
    of the repository: [waitgroup.Sync] is taken to be a
    [sync.WaitGroup] whose [Go(f)] adds one, starts [f] in a goroutine
    and calls [Done] when [f] returns, and [stacktrace.NewError] to
    return an error that holds the given stack and unwraps to the given
    error.

    Concurrency is modelled by interleaving: a run of the program is a
    list of events, each event being one atomic step of some goroutine
    (a method call on the Group, the return of a task body, a timer
    firing, the parent context being cancelled).  The methods of the
    source are the functions below; [step] dispatches an event to them. *)

From stdpp Require Import gmap strings list.

(** ** Results of a step *)

(** A step of the program either completes, panics, or cannot happen in
    the current state (a blocked [Wait], a goroutine that does not exist). *)
Inductive res (A : Type) : Type :=
| Ok (a : A)
| Panic (msg : string)
| Disabled.
Arguments Ok {A} a.
Arguments Panic {A} msg.
Arguments Disabled {A}.

#[global] Instance res_ret : MRet res := λ A a, Ok a.
#[global] Instance res_bind : MBind res := λ A B f m,
  match m with
  | Ok a => f a
  | Panic msg => Panic msg
  | Disabled => Disabled
  end.

#[global] Instance res_fmap : FMap res := λ A B f m,
  match m with
  | Ok a => Ok (f a)
  | Panic msg => Panic msg
  | Disabled => Disabled
  end.

Definition is_Ok {A} (r : res A) : bool :=
  match r with Ok _ => true | _ => false end.

(** ** Errors *)

(** One entry of a call stack, as [stacktrace.Callers] captures it. *)
Record frame : Type := Frame { file : string; line : nat; func : string }.

#[global] Instance frame_eq_dec : EqDecision frame.
Proof. solve_decision. Defined.

(** [[]uintptr]: the stack of the caller, innermost frame first. *)
Definition callers : Type := list frame.

(** A non-nil Go [error] value; the nil error is [None] in
    [option error].  [errorString] stands for the values made by
    [errors.New] and [fmt.Errorf], compared by identity in Go: the string
    is the identity of the value.  [stError] is the value built by
    [stacktrace.NewError]: it carries the stack and unwraps to [err]. *)
Inductive error : Type :=
| errorString (s : string)
| stError (err : error) (cs : callers).

#[global] Instance error_eq_dec : EqDecision error.
Proof. solve_decision. Defined.

Module errors.

(** [errors.is] (named [is_] here): [err] matches [target] when some error of its
    [Unwrap] chain is equal to [target]. *)
Fixpoint is_ (err target : error) : bool :=
  bool_decide (err = target) ||
  match err with
  | errorString _ => false
  | stError e _ => is_ e target
  end.

(** [errors.Is]: with a nil on either side it is plain equality. *)
Definition Is (err target : option error) : bool :=
  match err, target with
  | Some e, Some t => is_ e t
  | None, None => true
  | _, _ => false
  end.

End errors.

Module stacktrace.

(** [stacktrace.NewError(err, callers)]: wraps [err] with the stack. *)
Definition NewError (err : error) (cs : callers) : error := stError err cs.

End stacktrace.

(** ** Contexts *)

Module context.

Definition Canceled : error := errorString "context canceled".
Definition DeadlineExceeded : error := errorString "context deadline exceeded".

(** The state of a cancellable context ([context.cancelCtx]): both
    fields are nil until the context is cancelled. *)
Record cancelCtx : Type := mkCtx { err : option error; cause : option error }.

#[global] Instance cancelCtx_eq_dec : EqDecision cancelCtx.
Proof. solve_decision. Defined.

Definition fresh : cancelCtx := {| err := None; cause := None |}.

(** The method [cancel(_, err, cause)] of [cancelCtx]: the first call sets both
    fields, a nil cause being replaced by [err]; later calls return
    without touching the context. *)
Definition cancel (e : error) (c : option error) (ctx : cancelCtx) : cancelCtx :=
  match err ctx with
  | Some _ => ctx
  | None => {| err := Some e; cause := Some (default e c) |}
  end.

(** What a child receives from its parent: when the parent is done the
    child is cancelled with the parent's error and cause. *)
Definition propagate (parent child : cancelCtx) : cancelCtx :=
  match err parent with
  | Some e => cancel e (cause parent) child
  | None => child
  end.

(** [context.WithCancelCause(parent)] and [context.WithCancel(parent)]:
    a new context, already cancelled if the parent is.  The parent is
    [None] for [context.Background()], which is never cancelled. *)
Definition WithCancel (parent : option cancelCtx) : cancelCtx :=
  match parent with
  | Some p => propagate p fresh
  | None => fresh
  end.

(** The function returned by [WithCancelCause]: [cancel(cause)]. *)
Definition CancelCauseFunc (c : option error) (ctx : cancelCtx) : cancelCtx :=
  cancel Canceled c ctx.

(** The function returned by [WithCancel]: [cancel()]. *)
Definition CancelFunc (ctx : cancelCtx) : cancelCtx :=
  cancel Canceled None ctx.

(** [context.Cause(ctx)]. *)
Definition Cause (ctx : cancelCtx) : option error := cause ctx.

(** [ctx.Err()]. *)
Definition Err (ctx : cancelCtx) : option error := err ctx.

(** Whether [ctx.Done()] is closed. *)
Definition done (ctx : cancelCtx) : bool := bool_decide (err ctx ≠ None).

End context.

(** ** rungroup/v2 *)

Module V2.

(** [var ErrClosed = errors.New("closed")] *)
Definition ErrClosed : error := errorString "closed".

(** The frame of [Close] itself: what [stacktrace.Callers(1)] sees
    first inside the [Cancel] that [Close] calls. *)
Definition Close_frame : frame := Frame "group.go" 94 "Group.Close".

(** [type Group struct].  [g] is the counter of the [waitgroup.Sync];
    [ctx] stands for the two fields [ctx] and [cancel], which are set
    together and are both nil ([None]) in the zero value.  The mutex
    [mu] is held for the whole body of [getContext], which is why
    [getContext] is one atomic step here. *)
Record Group : Type := mkGroup {
  g : nat;
  ctx : option context.cancelCtx
}.

(** The goroutines the package starts.  The first four are the
    closures handed to [gr.g.Go] by [Go] and by the three
    [GoCancelOn...] methods, each with the [callers] it captured; the
    last is the goroutine that [SetTimeout] starts with a plain [go]
    statement. *)
Inductive goroutine : Type :=
| plain
| cancelOnFinish (cs : callers)
| cancelOnSuccess (cs : callers)
| cancelOnError (cs : callers)
| timeout (cs : callers).

(** The Group, the context it was derived from ([None] for
    [context.Background()]), the goroutines that are running, the
    number of callers blocked inside [Wait], and the values that calls
    of [Wait] have returned so far, latest first. *)
Record World : Type := mkWorld {
  gr : Group;
  parent : option context.cancelCtx;
  procs : gmap nat goroutine;
  next : nat;
  waiters : nat;
  out : list (option error)
}.

Definition set_gr (w : World) (x : Group) : World :=
  {| gr := x; parent := parent w; procs := procs w; next := next w;
     waiters := waiters w; out := out w |}.

(** *** Methods acting on the Group alone *)

(** [func (gr *Group) getContext() context.Context] *)
Definition getContext (gr : Group) : Group :=
  match ctx gr with
  | Some _ => gr
  | None => {| g := g gr; ctx := Some (context.WithCancel None) |}
  end.

(** A call of the field [gr.cancel]; calling it while it is nil is a
    nil dereference. *)
Definition cancel (cause : error) (gr : Group) : res Group :=
  match ctx gr with
  | Some c => Ok {| g := g gr; ctx := Some (context.CancelCauseFunc (Some cause) c) |}
  | None => Panic "invalid memory address or nil pointer dereference"
  end.

(** [func (gr *Group) Cancel(cause error)]; [site] is the result of
    [stacktrace.Callers(1)], the stack of the caller. *)
Definition Cancel (cause : option error) (site : callers) (gr : Group) : res Group :=
  let gr := getContext gr in
  let cause := default context.Canceled cause in
  cancel (stacktrace.NewError cause site) gr.

(** [func (gr *Group) Close()] *)
Definition Close (site : callers) (gr : Group) : res Group :=
  Cancel (Some (stacktrace.NewError ErrClosed site)) (Close_frame :: site) gr.

(** [gr.g.Wait()] returns only when the counter is zero. *)
Definition wg_Wait (gr : Group) : res unit :=
  if decide (g gr = 0) then Ok () else Disabled.

Definition wg_Add (gr : Group) : Group := {| g := S (g gr); ctx := ctx gr |}.

Definition wg_Done (gr : Group) : res Group :=
  match g gr with
  | 0 => Panic "sync: negative WaitGroup counter"
  | S n => Ok {| g := n; ctx := ctx gr |}
  end.

(** [context.Cause(gr.ctx)] *)
Definition Cause (gr : Group) : res (option error) :=
  match ctx gr with
  | Some c => Ok (context.Cause c)
  | None => Panic "invalid memory address or nil pointer dereference"
  end.

(** [func (gr *Group) Wait() error], in its two steps: the call, which
    runs [getContext], and the return, which happens once the counter
    is zero and reads the cause at that moment. *)
Definition Wait_enter (gr : Group) : Group := getContext gr.

Definition Wait_return (gr : Group) : res (option error) :=
  _ ← wg_Wait gr; Cause gr.

(** A whole call of [Wait] that finds the counter at zero. *)
Definition Wait (gr : Group) : res (Group * option error) :=
  let gr := Wait_enter gr in
  r ← Wait_return gr; Ok (gr, r).

(** What the closure of each registration method does once the task
    body has returned [r] (a plain task returns nothing). *)
Definition after_task (p : goroutine) (r : option error) (gr : Group) : res Group :=
  match p with
  | plain => Ok gr
  | cancelOnFinish cs =>
      cancel (stacktrace.NewError (default context.Canceled r) cs) gr
  | cancelOnSuccess cs =>
      match r with
      | None => cancel (stacktrace.NewError context.Canceled cs) gr
      | Some _ => Ok gr
      end
  | cancelOnError cs =>
      match r with
      | Some e => cancel (stacktrace.NewError e cs) gr
      | None => Ok gr
      end
  | timeout _ => Disabled
  end.

(** *** Methods that start goroutines *)

(** The [go] statement. *)
Definition go (p : goroutine) (w : World) : World :=
  {| gr := gr w; parent := parent w;
     procs := <[next w := p]> (procs w); next := S (next w);
     waiters := waiters w; out := out w |}.

(** [func (gr *Group) Go(task func(context.Context))]: [getContext],
    then [gr.g.Go], which adds one to the counter and starts the
    goroutine. *)
Definition Go (p : goroutine) (w : World) : World :=
  let gr := getContext (gr w) in
  go p (set_gr w (wg_Add gr)).

Definition GoCancelOnFinish (site : callers) (w : World) : World :=
  Go (cancelOnFinish site) w.

Definition GoCancelOnSuccess (site : callers) (w : World) : World :=
  Go (cancelOnSuccess site) w.

Definition GoCancelOnError (site : callers) (w : World) : World :=
  Go (cancelOnError site) w.

(** [func (gr *Group) SetTimeout(timeout time.Duration)] *)
Definition SetTimeout (site : callers) (w : World) : World :=
  let gr := getContext (gr w) in
  go (timeout site) (set_gr w gr).

(** [func New(parent context.Context) *Group] *)
Definition New (parent : option context.cancelCtx) : World :=
  {| gr := {| g := 0; ctx := Some (context.WithCancel parent) |};
     parent := parent; procs := ∅; next := 0; waiters := 0; out := [] |}.

(** [var gr rungroup.Group]: the zero value. *)
Definition zero : World :=
  {| gr := {| g := 0; ctx := None |}; parent := None; procs := ∅; next := 0;
     waiters := 0; out := [] |}.

(** *** Goroutines finishing *)

Definition exit (id : nat) (w : World) : World :=
  {| gr := gr w; parent := parent w; procs := delete id (procs w); next := next w;
     waiters := waiters w; out := out w |}.

(** The task body of goroutine [id] returns [r]; the closure runs its
    cancellation policy and the deferred [Done] of [gr.g.Go]. *)
Definition task_return (id : nat) (r : option error) (w : World) : res World :=
  match procs w !! id with
  | Some p =>
      gr1 ← after_task p r (gr w);
      gr2 ← wg_Done gr1;
      Ok (exit id (set_gr w gr2))
  | None => Disabled
  end.

(** The [select] of the goroutine of [SetTimeout], case [<-t.C]. *)
Definition timer_fire (id : nat) (w : World) : res World :=
  match procs w !! id with
  | Some (timeout cs) =>
      gr1 ← cancel (stacktrace.NewError context.DeadlineExceeded cs) (gr w);
      Ok (exit id (set_gr w gr1))
  | _ => Disabled
  end.

(** The same [select], case [<-ctx.Done()]. *)
Definition timer_ctx_done (id : nat) (w : World) : res World :=
  match procs w !! id, ctx (gr w) with
  | Some (timeout _), Some c =>
      if context.done c then Ok (exit id w) else Disabled
  | _, _ => Disabled
  end.

(** The owner of the parent context cancels it; the Group's context,
    a child of it, is cancelled with the same error and cause. *)
Definition parent_cancel (e cause : error) (w : World) : res World :=
  match parent w with
  | Some p =>
      let p' := context.cancel e (Some cause) p in
      Ok {| gr := {| g := g (gr w); ctx := context.propagate p' <$> ctx (gr w) |};
            parent := Some p'; procs := procs w; next := next w;
            waiters := waiters w; out := out w |}
  | None => Disabled
  end.

(** *** Calls of [Wait] *)

Definition wait_enter (w : World) : World :=
  {| gr := Wait_enter (gr w); parent := parent w; procs := procs w; next := next w;
     waiters := S (waiters w); out := out w |}.

Definition wait_return (w : World) : res World :=
  match waiters w with
  | 0 => Disabled
  | S n =>
      r ← Wait_return (gr w);
      Ok {| gr := gr w; parent := parent w; procs := procs w; next := next w;
            waiters := n; out := r :: out w |}
  end.

(** *** Events and runs *)

Inductive event : Type :=
| CallCancel (cause : option error) (site : callers)
| CallClose (site : callers)
| CallGo
| CallGoCancelOnFinish (site : callers)
| CallGoCancelOnSuccess (site : callers)
| CallGoCancelOnError (site : callers)
| CallSetTimeout (site : callers)
| WaitEnter
| WaitReturn
| TaskReturn (id : nat) (r : option error)
| TimerFire (id : nat)
| TimerCtxDone (id : nat)
| ParentCancel (e cause : error).

Definition step (e : event) (w : World) : res World :=
  match e with
  | CallCancel cause site => set_gr w <$> Cancel cause site (gr w)
  | CallClose site => set_gr w <$> Close site (gr w)
  | CallGo => Ok (Go plain w)
  | CallGoCancelOnFinish site => Ok (GoCancelOnFinish site w)
  | CallGoCancelOnSuccess site => Ok (GoCancelOnSuccess site w)
  | CallGoCancelOnError site => Ok (GoCancelOnError site w)
  | CallSetTimeout site => Ok (SetTimeout site w)
  | WaitEnter => Ok (wait_enter w)
  | WaitReturn => wait_return w
  | TaskReturn id r => task_return id r w
  | TimerFire id => timer_fire id w
  | TimerCtxDone id => timer_ctx_done id w
  | ParentCancel e cause => parent_cancel e cause w
  end.

Fixpoint run (t : list event) (w : World) : res World :=
  match t with
  | [] => Ok w
  | e :: t => w' ← step e w; run t w'
  end.

(** *** What an observer of the Group's context sees *)

(** [context.Cause] of the Group's context; nil while the context has
    not been made. *)
Definition recorded (gr : Group) : option error :=
  c ← ctx gr; context.Cause c.

(** Whether the Group's context is done. *)
Definition cancelled (gr : Group) : bool :=
  match ctx gr with
  | Some c => context.done c
  | None => false
  end.

End V2.

(** ** rungroup (v1) *)

Module V1.

(** [type Group struct].  [ctx] stands for the fields [ctx] and
    [cancel], nil ([None]) in the zero value; [wg] is the counter of the
    [waitgroup.Sync]; [errOnce] tells whether the [sync.Once] has run. *)
Record Group : Type := mkGroup {
  ctx : option context.cancelCtx;
  wg : nat;
  errOnce : bool;
  err : option error;
  doNotReuse : bool
}.

(** The goroutines started by [g.wg.Go]: the closure of [Go] around a
    task of the caller, and the same closure around the task that
    [NewTimeout] registers. *)
Inductive goroutine : Type :=
| task
| deadline.

Record World : Type := mkWorld {
  gr : Group;
  parent : option context.cancelCtx;
  procs : gmap nat goroutine;
  next : nat;
  waiters : nat;
  out : list (option error)
}.

Definition set_gr (w : World) (x : Group) : World :=
  {| gr := x; parent := parent w; procs := procs w; next := next w;
     waiters := waiters w; out := out w |}.

(** [func (g *Group) checkInitialized()] *)
Definition checkInitialized (g : Group) : res unit :=
  match ctx g with
  | None => Panic "A Group must be created by New or NewTimeout, zero value must not be used."
  | Some _ => Ok ()
  end.

(** [func (g *Group) checkReuse()] *)
Definition checkReuse (g : Group) : res unit :=
  if doNotReuse g then Panic "A Group must must not be reused." else Ok ().

(** [func (g *Group) setResult(err error)]: the body runs under
    [g.errOnce.Do], that is on the first call only. *)
Definition setResult (e : option error) (g : Group) : res Group :=
  if errOnce g then Ok g
  else
    match ctx g with
    | Some c =>
        Ok {| ctx := Some (context.CancelFunc c); wg := wg g; errOnce := true;
              err := e; doNotReuse := doNotReuse g |}
    | None => Panic "invalid memory address or nil pointer dereference"
    end.

(** [func (g *Group) Cancel()] *)
Definition Cancel (g : Group) : res Group :=
  _ ← checkInitialized g;
  setResult (Some context.Canceled) g.

Definition wg_Wait (g : Group) : res unit :=
  if decide (wg g = 0) then Ok () else Disabled.

Definition wg_Add (g : Group) : Group :=
  {| ctx := ctx g; wg := S (wg g); errOnce := errOnce g; err := err g;
     doNotReuse := doNotReuse g |}.

Definition wg_Done (g : Group) : res Group :=
  match wg g with
  | 0 => Panic "sync: negative WaitGroup counter"
  | S n => Ok {| ctx := ctx g; wg := n; errOnce := errOnce g; err := err g;
                 doNotReuse := doNotReuse g |}
  end.

(** [func (g *Group) Wait() error], in its two steps: up to the
    blocking [g.wg.Wait()], and from its return on. *)
Definition Wait_enter (g : Group) : res Group :=
  _ ← checkInitialized g;
  Ok {| ctx := ctx g; wg := wg g; errOnce := errOnce g; err := err g;
        doNotReuse := true |}.

Definition Wait_return (g : Group) : res (Group * option error) :=
  _ ← wg_Wait g;
  g' ← setResult None g;
  Ok (g', err g').

(** A whole call of [Wait] that finds the counter at zero. *)
Definition Wait (g : Group) : res (Group * option error) :=
  g1 ← Wait_enter g; Wait_return g1.

Definition go (p : goroutine) (w : World) : World :=
  {| gr := gr w; parent := parent w;
     procs := <[next w := p]> (procs w); next := S (next w);
     waiters := waiters w; out := out w |}.

(** [func (g *Group) Go(task func(context.Context) error)] *)
Definition Go (p : goroutine) (w : World) : res World :=
  _ ← checkInitialized (gr w);
  _ ← checkReuse (gr w);
  Ok (go p (set_gr w (wg_Add (gr w)))).

(** [func New(ctx context.Context) *Group] *)
Definition New (parent : option context.cancelCtx) : World :=
  {| gr := {| ctx := Some (context.WithCancel parent); wg := 0; errOnce := false;
              err := None; doNotReuse := false |};
     parent := parent; procs := ∅; next := 0; waiters := 0; out := [] |}.

(** [func NewTimeout(ctx context.Context, d time.Duration) *Group] *)
Definition NewTimeout (parent : option context.cancelCtx) : res World :=
  Go deadline (New parent).

(** The zero value of [Group]. *)
Definition zero : World :=
  {| gr := {| ctx := None; wg := 0; errOnce := false; err := None;
              doNotReuse := false |};
     parent := None; procs := ∅; next := 0; waiters := 0; out := [] |}.

Definition exit (id : nat) (w : World) : World :=
  {| gr := gr w; parent := parent w; procs := delete id (procs w); next := next w;
     waiters := waiters w; out := out w |}.

(** The closure of [Go] once its task has returned [r]:
    [g.setResult(err)], then the [Done] of [g.wg.Go]. *)
Definition finish (id : nat) (r : option error) (w : World) : res World :=
  g1 ← setResult r (gr w);
  g2 ← wg_Done g1;
  Ok (exit id (set_gr w g2)).

(** A task of the caller returns [r]. *)
Definition task_return (id : nat) (r : option error) (w : World) : res World :=
  match procs w !! id with
  | Some task => finish id r w
  | _ => Disabled
  end.

(** The task of [NewTimeout] waits on a context derived from the
    Group's with [context.WithTimeout] and returns its [Err()]: the
    deadline error when the timer fires first... *)
Definition timeout_fire (id : nat) (w : World) : res World :=
  match procs w !! id with
  | Some deadline => finish id (Some context.DeadlineExceeded) w
  | _ => Disabled
  end.

(** ... and the error of the Group's context when that is done first. *)
Definition timeout_ctx_done (id : nat) (w : World) : res World :=
  match procs w !! id, ctx (gr w) with
  | Some deadline, Some c =>
      match context.Err c with
      | Some e => finish id (Some e) w
      | None => Disabled
      end
  | _, _ => Disabled
  end.

Definition parent_cancel (e cause : error) (w : World) : res World :=
  match parent w with
  | Some p =>
      let p' := context.cancel e (Some cause) p in
      Ok {| gr := {| ctx := context.propagate p' <$> ctx (gr w); wg := wg (gr w);
                     errOnce := errOnce (gr w); err := err (gr w);
                     doNotReuse := doNotReuse (gr w) |};
            parent := Some p'; procs := procs w; next := next w;
            waiters := waiters w; out := out w |}
  | None => Disabled
  end.

Definition wait_enter (w : World) : res World :=
  g1 ← Wait_enter (gr w);
  Ok {| gr := g1; parent := parent w; procs := procs w; next := next w;
        waiters := S (waiters w); out := out w |}.

Definition wait_return (w : World) : res World :=
  match waiters w with
  | 0 => Disabled
  | S n =>
      x ← Wait_return (gr w);
      Ok {| gr := x.1; parent := parent w; procs := procs w; next := next w;
            waiters := n; out := x.2 :: out w |}
  end.

Inductive event : Type :=
| CallCancel
| CallGo
| WaitEnter
| WaitReturn
| TaskReturn (id : nat) (r : option error)
| TimeoutFire (id : nat)
| TimeoutCtxDone (id : nat)
| ParentCancel (e cause : error).

Definition step (e : event) (w : World) : res World :=
  match e with
  | CallCancel => set_gr w <$> Cancel (gr w)
  | CallGo => Go task w
  | WaitEnter => wait_enter w
  | WaitReturn => wait_return w
  | TaskReturn id r => task_return id r w
  | TimeoutFire id => timeout_fire id w
  | TimeoutCtxDone id => timeout_ctx_done id w
  | ParentCancel e cause => parent_cancel e cause w
  end.

Fixpoint run (t : list event) (w : World) : res World :=
  match t with
  | [] => Ok w
  | e :: t => w' ← step e w; run t w'
  end.

(** Whether the Group's context is done. *)
Definition cancelled (g : Group) : bool :=
  match ctx g with
  | Some c => context.done c
  | None => false
  end.

End V1.

(** ** Vocabulary for whole runs *)

Definition is_Panic {A} (r : res A) : bool :=
  match r with Panic _ => true | _ => false end.

Module V2Run.

(** Whether a goroutine was started through [gr.g.Go], and so is
    counted by the wait group: all but the goroutine of [SetTimeout]. *)
Definition tracked (p : V2.goroutine) : bool :=
  match p with
  | V2.timeout _ => false
  | _ => true
  end.

(** The number of running goroutines that were started through
    [gr.g.Go]. *)
Definition outstanding (w : V2.World) : nat :=
  size (filter (λ kv : nat * V2.goroutine, tracked kv.2 = true) (V2.procs w)).

(** The worlds a program starts from: the zero value, or the result of
    [New(parent)]. *)
Definition initial (w : V2.World) : Prop :=
  w = V2.zero ∨ ∃ p, w = V2.New p.

(** What holds of the bookkeeping in every world a run can reach: the
    counter is the number of tracked goroutines, goroutine identifiers
    from [next] on are unused, and the context has been made as soon as
    a goroutine runs or a caller is inside [Wait]. *)
Definition inv (w : V2.World) : Prop :=
  V2.g (V2.gr w) = outstanding w ∧
  (∀ id, V2.next w ≤ id → V2.procs w !! id = None) ∧
  (∀ id p, V2.procs w !! id = Some p → is_Some (V2.ctx (V2.gr w))) ∧
  (V2.waiters w ≠ 0 → is_Some (V2.ctx (V2.gr w))).

(** The events of a program that only starts plain tasks and waits. *)
Definition plain_event (e : V2.event) : bool :=
  match e with
  | V2.CallGo | V2.WaitEnter | V2.WaitReturn | V2.TaskReturn _ _ => true
  | _ => false
  end.

(** The events other than a cancellation of the parent context. *)
Definition own_event (e : V2.event) : bool :=
  match e with
  | V2.ParentCancel _ _ => false
  | _ => true
  end.

(** An error that carries a stack. *)
Definition traced (e : error) : bool :=
  match e with
  | stError _ _ => true
  | errorString _ => false
  end.

(** The two shapes of a context that only this package cancels: not
    done, or done with [context.Canceled] as error and a cause that
    carries a stack. *)
Definition own_ctx (c : context.cancelCtx) : Prop :=
  c = context.fresh ∨
  (context.err c = Some context.Canceled ∧
   ∃ e, context.cause c = Some e ∧ traced e = true).

End V2Run.

Module V1Run.

(** What holds of the bookkeeping in every world a run can reach from
    [New]: the counter is the number of running goroutines, identifiers
    from [next] on are unused, the context exists, a recorded result
    means a cancelled context, and every value that [Wait] has returned
    is the recorded result. *)
Definition inv (w : V1.World) : Prop :=
  V1.wg (V1.gr w) = size (V1.procs w) ∧
  (∀ id, V1.next w ≤ id → V1.procs w !! id = None) ∧
  is_Some (V1.ctx (V1.gr w)) ∧
  (V1.errOnce (V1.gr w) = true → V1.cancelled (V1.gr w) = true) ∧
  (∀ x, x ∈ V1.out w → V1.errOnce (V1.gr w) = true ∧ x = V1.err (V1.gr w)).

(** The panic of [checkReuse]. *)
Definition reuse_panic : string := "A Group must must not be reused.".

Definition is_WaitEnter (e : V1.event) : bool :=
  match e with V1.WaitEnter => true | _ => false end.

Definition is_CallGo (e : V1.event) : bool :=
  match e with V1.CallGo => true | _ => false end.

(** The worlds a program starts from: the result of [New(ctx)] or of
    [NewTimeout(ctx, d)]. *)
Definition initial (w : V1.World) : Prop :=
  (∃ p, w = V1.New p) ∨ (∃ p, V1.NewTimeout p = Ok w).

(** The events of a program that starts no task and never calls
    [Cancel]: calls of [Wait] and cancellations of the parent. *)
Definition idle_event (e : V1.event) : bool :=
  match e with
  | V1.WaitEnter | V1.WaitReturn | V1.ParentCancel _ _ => true
  | _ => false
  end.

End V1Run.

(** * Properties *)

(** ** The monad of results *)

Lemma bind_Ok {A B} (m : res A) (f : A → res B) (b : B) :
  m ≫= f = Ok b ↔ ∃ a, m = Ok a ∧ f a = Ok b.
Proof.
  destruct m as [a| |]; simpl; split.
  - intros H. by exists a.
  - by intros (a' & [= ->] & H).
  - done.
  - by intros (a' & ? & _).
  - done.
  - by intros (a' & ? & _).
Qed.

Lemma fmap_Ok {A B} (m : res A) (f : A → B) (b : B) :
  f <$> m = Ok b ↔ ∃ a, m = Ok a ∧ b = f a.
Proof.
  destruct m as [a| |]; simpl; split.
  - intros [= <-]. by exists a.
  - by intros (a' & [= ->] & ->).
  - done.
  - by intros (a' & ? & _).
  - done.
  - by intros (a' & ? & _).
Qed.

(** Splits every hypothesis that says a sequence of calls completed. *)
Ltac inv_res :=
  repeat match goal with
    | H : _ ≫= _ = Ok _ |- _ => apply bind_Ok in H; destruct H as (? & ? & H)
    | H : _ <$> _ = Ok _ |- _ => apply fmap_Ok in H; destruct H as (? & H & ?)
    | H : Ok _ = Ok _ |- _ => injection H as H
    | H : Panic _ = Ok _ |- _ => discriminate H
    | H : Disabled = Ok _ |- _ => discriminate H
    end.

(** ** Contexts are cancelled once *)

Module contextProps.
Import context.

Lemma done_true (x : cancelCtx) : done x = true ↔ ∃ e, err x = Some e.
Proof.
  unfold done. rewrite bool_decide_eq_true.
  destruct (err x) as [e|]; split; eauto; try done.
  by intros [e ?].
Qed.

Lemma done_false (x : cancelCtx) : done x = false ↔ err x = None.
Proof.
  unfold done. rewrite bool_decide_eq_false.
  destruct (err x) as [e|]; split; try done.
  - intros H. by destruct H.
  - intros _ H. by apply H.
Qed.

Lemma cancel_done e c x : done x = true → cancel e c x = x.
Proof. intros [e' He]%done_true. unfold cancel. by rewrite He. Qed.

Lemma cancel_not_done e c x :
  done x = false → cancel e c x = {| err := Some e; cause := Some (default e c) |}.
Proof. intros He%done_false. unfold cancel. by rewrite He. Qed.

Lemma done_cancel e c x : done (cancel e c x) = true.
Proof.
  destruct (done x) eqn:Hd.
  - by rewrite cancel_done.
  - by rewrite cancel_not_done.
Qed.

Lemma propagate_done p x : done x = true → propagate p x = x.
Proof.
  intros Hd. unfold propagate. destruct (err p); [by apply cancel_done | done].
Qed.

End contextProps.

(** ** rungroup/v2: the context of a Group *)

Module V2Props.
Import V2 contextProps.

Lemma getContext_init gr c : ctx gr = Some c → getContext gr = gr.
Proof. intros H. unfold getContext. by rewrite H. Qed.

Lemma getContext_zero gr :
  ctx gr = None → getContext gr = {| g := g gr; ctx := Some context.fresh |}.
Proof. intros H. unfold getContext. by rewrite H. Qed.

Lemma getContext_is_Some gr : is_Some (ctx (getContext gr)).
Proof.
  unfold getContext. destruct (ctx gr) as [c|] eqn:E.
  - rewrite E. by exists c.
  - simpl. by eexists.
Qed.

Lemma getContext_idem gr : getContext (getContext gr) = getContext gr.
Proof.
  destruct (getContext_is_Some gr) as [c Hc]. by apply getContext_init with c.
Qed.

Lemma getContext_g gr : g (getContext gr) = g gr.
Proof. unfold getContext. by destruct (ctx gr). Qed.

Lemma cancelled_getContext gr : cancelled (getContext gr) = cancelled gr.
Proof.
  destruct (ctx gr) as [c|] eqn:E.
  - by rewrite (getContext_init _ _ E).
  - rewrite (getContext_zero _ E). unfold cancelled. by rewrite E.
Qed.

Lemma recorded_getContext gr : recorded (getContext gr) = recorded gr.
Proof.
  destruct (ctx gr) as [c|] eqn:E.
  - by rewrite (getContext_init _ _ E).
  - rewrite (getContext_zero _ E). unfold recorded. by rewrite E.
Qed.

Lemma cancelled_true gr :
  cancelled gr = true ↔ ∃ c, ctx gr = Some c ∧ context.done c = true.
Proof.
  unfold cancelled. destruct (ctx gr) as [c|]; split.
  - intros H. by exists c.
  - by intros (c' & [= ->] & H).
  - done.
  - by intros (c' & ? & _).
Qed.

(** On a Group whose context is done, [gr.cancel] changes nothing. *)
Lemma cancel_frozen x gr : cancelled gr = true → cancel x gr = Ok gr.
Proof.
  intros (c & Hc & Hd)%cancelled_true. unfold cancel, context.CancelCauseFunc.
  rewrite Hc, (cancel_done _ _ _ Hd). destruct gr; simpl in *. by subst.
Qed.

(** On a Group whose context exists and is not done, [gr.cancel]
    records the cause it is given. *)
Lemma gr_cancel_first x gr :
  is_Some (ctx gr) → cancelled gr = false →
  cancel x gr =
    Ok {| g := g gr;
          ctx := Some {| context.err := Some context.Canceled;
                         context.cause := Some x |} |}.
Proof.
  intros [c Hc] Hd. unfold cancelled in Hd. rewrite Hc in Hd.
  unfold cancel, context.CancelCauseFunc. by rewrite Hc, (cancel_not_done _ _ _ Hd).
Qed.

Lemma Cancel_frozen c s gr : cancelled gr = true → Cancel c s gr = Ok gr.
Proof.
  intros Hd. unfold Cancel.
  destruct (proj1 (cancelled_true gr) Hd) as (x & Hx & _).
  rewrite (getContext_init _ _ Hx). by apply cancel_frozen.
Qed.

Lemma Cancel_first c s gr :
  cancelled gr = false →
  Cancel c s gr =
    Ok {| g := g gr;
          ctx := Some {| context.err := Some context.Canceled;
                         context.cause :=
                           Some (stError (default context.Canceled c) s) |} |}.
Proof.
  intros Hd. unfold Cancel.
  rewrite gr_cancel_first, getContext_g; [done | apply getContext_is_Some |].
  by rewrite cancelled_getContext.
Qed.

Lemma after_task_frozen p r gr gr' :
  cancelled gr = true → after_task p r gr = Ok gr' → gr' = gr.
Proof.
  intros Hd. destruct p, r; simpl; rewrite ?(cancel_frozen _ _ Hd); congruence.
Qed.

Lemma wg_Done_ctx gr gr' : wg_Done gr = Ok gr' → ctx gr' = ctx gr.
Proof. unfold wg_Done. destruct (g gr); [done |]. by intros [= <-]. Qed.

(** Once the context of the Group is done, no step of any goroutine
    changes it. *)
Lemma step_frozen e w w' :
  cancelled (gr w) = true → step e w = Ok w' → ctx (gr w') = ctx (gr w).
Proof.
  intros Hd Hs.
  pose proof (proj1 (cancelled_true _) Hd) as (c & Hc & Hdc).
  destruct e; simpl in Hs.
  - rewrite (Cancel_frozen _ _ _ Hd) in Hs. by inv_res; subst.
  - unfold Close in Hs. rewrite (Cancel_frozen _ _ _ Hd) in Hs. by inv_res; subst.
  - inv_res; subst. simpl. by rewrite (getContext_init _ _ Hc).
  - inv_res; subst. simpl. by rewrite (getContext_init _ _ Hc).
  - inv_res; subst. simpl. by rewrite (getContext_init _ _ Hc).
  - inv_res; subst. simpl. by rewrite (getContext_init _ _ Hc).
  - inv_res; subst. simpl. by rewrite (getContext_init _ _ Hc).
  - inv_res; subst. simpl. unfold Wait_enter. by rewrite (getContext_init _ _ Hc).
  - unfold wait_return in Hs. destruct (waiters w); [done |]. by inv_res; subst.
  - unfold task_return in Hs. destruct (procs w !! id); [| done].
    inv_res; subst. simpl.
    match goal with H : after_task _ _ _ = _ |- _ =>
      apply after_task_frozen in H; [subst | done] end.
    by eapply wg_Done_ctx.
  - unfold timer_fire in Hs. destruct (procs w !! id) as [[]|]; try done.
    rewrite (cancel_frozen _ _ Hd) in Hs. by inv_res; subst.
  - unfold timer_ctx_done in Hs. destruct (procs w !! id) as [[]|]; try done.
    rewrite Hc in Hs. destruct (context.done c); [| done]. by inv_res; subst.
  - unfold parent_cancel in Hs. destruct (parent w); [| done].
    inv_res; subst. simpl. rewrite Hc. simpl. by rewrite propagate_done.
Qed.

Lemma cancelled_ctx gr gr' : ctx gr' = ctx gr → cancelled gr' = cancelled gr.
Proof. unfold cancelled. by intros ->. Qed.

Lemma run_frozen t w w' :
  cancelled (gr w) = true → run t w = Ok w' → ctx (gr w') = ctx (gr w).
Proof.
  revert w. induction t as [|e t IH]; intros w Hd Hr; simpl in Hr.
  - by inv_res; subst.
  - inv_res. pose proof (step_frozen _ _ _ Hd H) as Hx.
    rewrite <- Hx. apply IH; [| done]. by rewrite (cancelled_ctx _ _ Hx).
Qed.

End V2Props.

(** ** rungroup (v1): the result and the flags of a Group *)

Module V1Props.
Import V1 contextProps.

Lemma setResult_done e g : errOnce g = true → setResult e g = Ok g.
Proof. intros H. unfold setResult. by rewrite H. Qed.

Lemma setResult_first e g c :
  errOnce g = false → ctx g = Some c →
  setResult e g =
    Ok {| ctx := Some (context.CancelFunc c); wg := wg g; errOnce := true;
          err := e; doNotReuse := doNotReuse g |}.
Proof. intros H Hc. unfold setResult. by rewrite H, Hc. Qed.

(** What [setResult] keeps and what it establishes. *)
Lemma setResult_spec e g g' :
  setResult e g = Ok g' →
  errOnce g' = true ∧ wg g' = wg g ∧ doNotReuse g' = doNotReuse g ∧
  (is_Some (ctx g) → is_Some (ctx g')) ∧
  err g' = (if errOnce g then err g else e) ∧
  (errOnce g = false → cancelled g' = true).
Proof.
  unfold setResult. destruct (errOnce g) eqn:Ho.
  - intros [= <-]. by rewrite Ho.
  - destruct (ctx g) as [c|] eqn:Hc; [| done]. intros [= <-]. simpl.
    repeat split; eauto. intros _. unfold cancelled. simpl.
    apply done_cancel.
Qed.

Lemma wg_Done_spec g g' :
  wg_Done g = Ok g' →
  ctx g' = ctx g ∧ errOnce g' = errOnce g ∧ err g' = err g ∧
  doNotReuse g' = doNotReuse g ∧ wg g = S (wg g').
Proof. unfold wg_Done. destruct (wg g); [done |]. by intros [= <-]. Qed.

Lemma finish_spec id r w w' :
  finish id r w = Ok w' →
  errOnce (gr w') = true ∧ wg (gr w) = S (wg (gr w')) ∧
  doNotReuse (gr w') = doNotReuse (gr w) ∧
  (is_Some (ctx (gr w)) → is_Some (ctx (gr w'))) ∧
  err (gr w') = (if errOnce (gr w) then err (gr w) else r) ∧
  (errOnce (gr w) = false → cancelled (gr w') = true).
Proof.
  unfold finish. intros H. inv_res. subst w'. simpl.
  match goal with H : setResult _ _ = _ |- _ =>
    apply setResult_spec in H; destruct H as (? & ? & ? & ? & ? & Hc) end.
  match goal with H : wg_Done _ = _ |- _ =>
    apply wg_Done_spec in H; destruct H as (Hx & ? & ? & ? & ?) end.
  repeat split; try congruence.
  - rewrite Hx. eauto.
  - intros Ho. unfold cancelled. rewrite Hx. by apply Hc.
Qed.

Lemma keeps_intro (g g' : Group) (e : option error) :
  errOnce g' = true →
  err g' = (if errOnce g then err g else e) →
  doNotReuse g' = doNotReuse g →
  (is_Some (ctx g) → is_Some (ctx g')) →
  (errOnce g = true → errOnce g' = true ∧ err g' = err g) ∧
  (doNotReuse g = true → doNotReuse g' = true) ∧
  (is_Some (ctx g) → is_Some (ctx g')).
Proof.
  intros Ho He Hr Hc. split_and!.
  - intros H. by rewrite H in He.
  - intros H. by rewrite Hr.
  - done.
Qed.

Lemma setResult_keeps e g g' :
  setResult e g = Ok g' →
  (errOnce g = true → errOnce g' = true ∧ err g' = err g) ∧
  (doNotReuse g = true → doNotReuse g' = true) ∧
  (is_Some (ctx g) → is_Some (ctx g')).
Proof.
  intros (? & ? & ? & ? & ? & _)%setResult_spec. by eapply keeps_intro.
Qed.

Lemma finish_keeps id r w w' :
  finish id r w = Ok w' →
  (errOnce (gr w) = true → errOnce (gr w') = true ∧ err (gr w') = err (gr w)) ∧
  (doNotReuse (gr w) = true → doNotReuse (gr w') = true) ∧
  (is_Some (ctx (gr w)) → is_Some (ctx (gr w'))).
Proof.
  intros (? & ? & ? & ? & ? & _)%finish_spec. by eapply keeps_intro.
Qed.

(** The three facts every step preserves: the result once recorded,
    the reuse mark once set, and the context once made. *)
Lemma step_keeps e w w' :
  step e w = Ok w' →
  (errOnce (gr w) = true → errOnce (gr w') = true ∧ err (gr w') = err (gr w)) ∧
  (doNotReuse (gr w) = true → doNotReuse (gr w') = true) ∧
  (is_Some (ctx (gr w)) → is_Some (ctx (gr w'))).
Proof.
  intros Hs. destruct e; simpl in Hs.
  - unfold Cancel in Hs. inv_res. subst w'. simpl. by eapply setResult_keeps.
  - unfold Go in Hs. inv_res. subst w'. simpl. eauto.
  - unfold wait_enter, Wait_enter in Hs. inv_res. subst. simpl. eauto.
  - unfold wait_return in Hs. destruct (waiters w); [done |].
    unfold Wait_return in Hs. inv_res. subst. simpl. by eapply setResult_keeps.
  - unfold task_return in Hs. destruct (procs w !! id) as [[]|]; try done.
    by eapply finish_keeps.
  - unfold timeout_fire in Hs. destruct (procs w !! id) as [[]|]; try done.
    by eapply finish_keeps.
  - unfold timeout_ctx_done in Hs. destruct (procs w !! id) as [[]|]; try done.
    destruct (ctx (gr w)) as [c|] eqn:Hc; [| done].
    destruct (context.Err c); [| done].
    rewrite <- Hc. by eapply finish_keeps.
  - unfold parent_cancel in Hs. destruct (parent w); [| done].
    inv_res. subst w'. simpl. split_and!; eauto.
    intros [x ->]. simpl. eauto.
Qed.

Lemma run_keeps t w w' :
  run t w = Ok w' →
  (errOnce (gr w) = true → errOnce (gr w') = true ∧ err (gr w') = err (gr w)) ∧
  (doNotReuse (gr w) = true → doNotReuse (gr w') = true) ∧
  (is_Some (ctx (gr w)) → is_Some (ctx (gr w'))).
Proof.
  revert w. induction t as [|e t IH]; intros w Hr; simpl in Hr.
  - inv_res. by subst.
  - inv_res. apply step_keeps in H. apply IH in Hr.
    destruct H as (A1 & A2 & A3), Hr as (B1 & B2 & B3).
    split_and!; eauto.
    intros Ho. destruct (A1 Ho) as [Ho' E]. destruct (B1 Ho'). split; congruence.
Qed.

End V1Props.

(** ** What [Wait] returns *)

Module WaitProps.
Import contextProps.

(** v2: with the counter at zero, [Wait] returns the cause held by the
    context and leaves the Group as [getContext] leaves it. *)
Lemma V2_Wait_spec (gr : V2.Group) :
  V2.g gr = 0 →
  V2.Wait gr = Ok (V2.getContext gr, V2.recorded gr).
Proof.
  intros Hg. unfold V2.Wait, V2.Wait_enter, V2.Wait_return, V2.wg_Wait, V2.Cause.
  rewrite V2Props.getContext_g, Hg. simpl.
  rewrite <- (V2Props.recorded_getContext gr). unfold V2.recorded.
  by destruct (V2Props.getContext_is_Some gr) as [c ->].
Qed.

(** v2: while the counter is not zero, [Wait] does not return. *)
Lemma V2_Wait_blocks (gr : V2.Group) : V2.g gr ≠ 0 → V2.Wait gr = Disabled.
Proof.
  intros Hg. unfold V2.Wait, V2.Wait_enter, V2.Wait_return, V2.wg_Wait.
  rewrite V2Props.getContext_g. by destruct (decide (V2.g gr = 0)).
Qed.

(** v1: with the counter at zero, [Wait] on a Group made by [New]
    returns the result already recorded, or records and returns nil. *)
Lemma V1_Wait_spec (g : V1.Group) (c : context.cancelCtx) :
  V1.ctx g = Some c → V1.wg g = 0 →
  V1.Wait g =
    Ok (if V1.errOnce g
        then {| V1.ctx := Some c; V1.wg := 0; V1.errOnce := true;
                V1.err := V1.err g; V1.doNotReuse := true |}
        else {| V1.ctx := Some (context.CancelFunc c); V1.wg := 0;
                V1.errOnce := true; V1.err := None; V1.doNotReuse := true |},
        if V1.errOnce g then V1.err g else None).
Proof.
  intros Hc Hg.
  unfold V1.Wait, V1.Wait_enter, V1.checkInitialized, V1.Wait_return,
    V1.wg_Wait, V1.setResult.
  rewrite Hc. simpl. rewrite Hg. simpl.
  by destruct (V1.errOnce g).
Qed.

Lemma V1_Wait_blocks (g : V1.Group) : V1.wg g ≠ 0 → is_Ok (V1.Wait g) = false.
Proof.
  intros Hg. unfold V1.Wait, V1.Wait_enter, V1.checkInitialized, V1.Wait_return,
    V1.wg_Wait.
  destruct (V1.ctx g); simpl; [| done].
  by destruct (decide (V1.wg g = 0)).
Qed.

End WaitProps.

(** ** The first cancellation, followed by any run *)

Module FirstCancel.

(** v2: a [Cancel] on a context that is not done fixes the context for
    the rest of the run. *)
Lemma V2_Cancel_then_run (w w' : V2.World) (c : option error) (s : callers)
    (t : list V2.event) :
  V2.cancelled (V2.gr w) = false →
  V2.run (V2.CallCancel c s :: t) w = Ok w' →
  V2.ctx (V2.gr w') =
    Some {| context.err := Some context.Canceled;
            context.cause := Some (stError (default context.Canceled c) s) |}.
Proof.
  intros Hd Hr. simpl in Hr.
  rewrite (V2Props.Cancel_first _ _ _ Hd) in Hr. simpl in Hr.
  by apply V2Props.run_frozen in Hr.
Qed.

(** v2: [Wait] on a Group that has its context. *)
Lemma V2_Wait_ctx (gr : V2.Group) (c : context.cancelCtx) :
  V2.ctx gr = Some c → V2.g gr = 0 → V2.Wait gr = Ok (gr, context.cause c).
Proof.
  intros Hc Hg. rewrite (WaitProps.V2_Wait_spec _ Hg).
  rewrite (V2Props.getContext_init _ _ Hc). unfold V2.recorded. by rewrite Hc.
Qed.

(** v1: a [Cancel()] before any result fixes [context.Canceled] as the
    result for the rest of the run. *)
Lemma V1_Cancel_then_run (w w' : V1.World) (t : list V1.event) :
  is_Some (V1.ctx (V1.gr w)) →
  V1.errOnce (V1.gr w) = false →
  V1.run (V1.CallCancel :: t) w = Ok w' →
  V1.errOnce (V1.gr w') = true ∧
  V1.err (V1.gr w') = Some context.Canceled ∧
  is_Some (V1.ctx (V1.gr w')).
Proof.
  intros [c Hc] Ho Hr. simpl in Hr. unfold V1.Cancel, V1.checkInitialized in Hr.
  rewrite Hc in Hr. simpl in Hr. rewrite (V1Props.setResult_first _ _ _ Ho Hc) in Hr.
  simpl in Hr. destruct (V1Props.run_keeps _ _ _ Hr) as (H1 & _ & H3).
  simpl in H1, H3. destruct (H1 eq_refl) as [? ?]. split_and!; [done | done |].
  apply H3. by eexists.
Qed.

(** v1: [Wait] on a Group with a recorded result returns that result. *)
Lemma V1_Wait_recorded (g : V1.Group) :
  is_Some (V1.ctx g) → V1.errOnce g = true → V1.wg g = 0 →
  snd <$> V1.Wait g = Ok (V1.err g).
Proof.
  intros [c Hc] Ho Hg. by rewrite (WaitProps.V1_Wait_spec _ _ Hc Hg), Ho.
Qed.

End FirstCancel.

(** ** Wrapping is transparent to [errors.Is] *)

Lemma is_refl (e : error) : errors.is_ e e = true.
Proof. destruct e; simpl; by rewrite bool_decide_eq_true_2. Qed.

Lemma is_NewError (e t : error) (cs : callers) :
  errors.is_ e t = true → errors.is_ (stacktrace.NewError e cs) t = true.
Proof. intros H. simpl. rewrite H. apply orb_true_r. Qed.

(** A task that returns takes one off the counter and leaves the other
    goroutines alone; what it does to the context is its policy's. *)
Lemma V2_task_return_spec (w : V2.World) (id : nat) (p : V2.goroutine)
    (r : option error) (gr1 : V2.Group) (n : nat) :
  V2.procs w !! id = Some p →
  V2.after_task p r (V2.gr w) = Ok gr1 →
  V2.g (V2.gr w) = S n →
  V2.step (V2.TaskReturn id r) w =
    Ok (V2.exit id (V2.set_gr w {| V2.g := n; V2.ctx := V2.ctx gr1 |})) ∧
  V2.g gr1 = S n.
Proof.
  intros Hp Ha Hg. simpl. unfold V2.task_return. rewrite Hp, Ha. simpl.
  assert (V2.g gr1 = S n) as Hg1.
  { destruct p, r; simpl in Ha; inv_res; subst; try done;
      unfold V2.cancel in Ha; destruct (V2.ctx (V2.gr w)); inv_res; by subst. }
  unfold V2.wg_Done. by rewrite Hg1.
Qed.

(** [Close] is [Cancel] with [ErrClosed], wrapped at the caller of
    [Close], as cause and the frame of [Close] on top of the call site. *)
Lemma V2_step_Close (s : callers) (w : V2.World) :
  V2.step (V2.CallClose s) w =
    V2.step (V2.CallCancel (Some (stacktrace.NewError V2.ErrClosed s))
               (V2.Close_frame :: s)) w.
Proof. reflexivity. Qed.

(** * The claims *)



(** C2, as stated, fails for v2: on a Group made by [New] that nobody
    cancelled, [Wait] returns nil and leaves the Group exactly as it was,
    its context not cancelled (so no final cancellation call was made),
    and a [Go] after that [Wait] registers a task. *)
Lemma wait_v2_leaves_group_untouched :
  V2.Wait (V2.gr (V2.New None)) = Ok (V2.gr (V2.New None), None) ∧
  V2.cancelled (V2.gr (V2.New None)) = false ∧
  ∃ w', V2.run [V2.WaitEnter; V2.WaitReturn; V2.CallGo] (V2.New None) = Ok w' ∧
        V2.out w' = [None] ∧
        V2.cancelled (V2.gr w') = false ∧
        V2.g (V2.gr w') = 1.
Proof.
  split_and!; [reflexivity | reflexivity |].
  eexists. split_and!; reflexivity.
Qed.

(** C2, amended.  v1: [Wait] marks the Group non-reusable as soon as it
    is entered, whatever the counter; it returns only when the counter is
    zero, and then makes a final [setResult(nil)], which changes nothing
    if a result was recorded before and otherwise cancels the context and
    records nil; it returns the recorded error.  v2: [Wait] returns only
    when the counter is zero; it returns the cause of the context (nil if
    it was never cancelled) and leaves the Group as [getContext] leaves
    it: no mark, and a context that is cancelled after [Wait] exactly if
    it was before. *)
Theorem wait_finalises :
  (∀ (g : V1.Group) (c : context.cancelCtx),
      V1.ctx g = Some c →
      (∃ g1, V1.Wait_enter g = Ok g1 ∧ V1.doNotReuse g1 = true ∧ V1.wg g1 = V1.wg g) ∧
      (V1.wg g ≠ 0 → is_Ok (V1.Wait g) = false) ∧
      (V1.wg g = 0 →
       ∃ g', V1.Wait g = Ok (g', if V1.errOnce g then V1.err g else None) ∧
             V1.doNotReuse g' = true ∧
             V1.errOnce g' = true ∧
             V1.err g' = (if V1.errOnce g then V1.err g else None) ∧
             (V1.errOnce g = true → V1.ctx g' = V1.ctx g) ∧
             (V1.errOnce g = false → V1.cancelled g' = true))) ∧
  (∀ gr : V2.Group,
      (V2.g gr ≠ 0 → V2.Wait gr = Disabled) ∧
      (V2.g gr = 0 →
       V2.Wait gr = Ok (V2.getContext gr, V2.recorded gr) ∧
       V2.g (V2.getContext gr) = V2.g gr ∧
       V2.cancelled (V2.getContext gr) = V2.cancelled gr ∧
       (V2.cancelled gr = false → is_Some (V2.ctx gr) → V2.getContext gr = gr))).
Proof.
  split.
  - intros g c Hc. split_and!.
    + unfold V1.Wait_enter, V1.checkInitialized. rewrite Hc. simpl. by eexists.
    + by apply WaitProps.V1_Wait_blocks.
    + intros Hg. rewrite (WaitProps.V1_Wait_spec _ _ Hc Hg).
      destruct (V1.errOnce g) eqn:Ho; eexists; split_and!; try done.
      intros _. unfold V1.cancelled. simpl. apply contextProps.done_cancel.
  - intros gr. split.
    + apply WaitProps.V2_Wait_blocks.
    + intros Hg. split_and!.
      * by apply WaitProps.V2_Wait_spec.
      * apply V2Props.getContext_g.
      * apply V2Props.cancelled_getContext.
      * intros _ [c Hc]. by apply V2Props.getContext_init with c.
Qed.

(** A v1 Group whose only task returned an error, and a zero v2 Group. *)
Lemma wait_finalises_witness :
  (∃ g', V1.Wait (V1.gr (V1.New None)) = Ok (g', None) ∧
         V1.doNotReuse g' = true ∧ V1.cancelled g' = true) ∧
  V2.Wait (V2.gr V2.zero) = Ok (V2.gr (V2.New None), None).
Proof.
  destruct wait_finalises as [H1 H2]. split.
  - destruct (H1 (V1.gr (V1.New None)) context.fresh eq_refl) as (_ & _ & H).
    destruct (H eq_refl) as (g' & Hw & Hr & _ & _ & _ & Hc).
    exists g'. split_and!; [exact Hw | exact Hr | exact (Hc eq_refl)].
  - destruct (H2 (V2.gr V2.zero)) as [_ H].
    destruct (H eq_refl) as (Hw & _). exact Hw.
Defined.

(** C3, as stated, fails for v2: after a [Wait] that has returned, [Go]
    and [GoCancelOnError] do not fault; they register their tasks. *)
Lemma go_after_wait_v2_registers :
  ∃ w', V2.run [V2.WaitEnter; V2.WaitReturn; V2.CallGo; V2.CallGoCancelOnError []]
          (V2.New None) = Ok w' ∧
        V2.out w' = [None] ∧
        V2.g (V2.gr w') = 2 ∧
        V2.procs w' !! 0 = Some V2.plain ∧
        V2.procs w' !! 1 = Some (V2.cancelOnError []).
Proof. eexists. split_and!; reflexivity. Qed.

(** C3, amended.  v1: once [Wait] has been entered on a Group, every
    later [Go], after any events, panics.  v2 has no such check: [Go]
    with any of the four closures always registers the task, adding one
    to the counter and starting the goroutine. *)
Theorem go_after_wait :
  (∀ (w w1 w' : V1.World) (t : list V1.event),
      V1.step V1.WaitEnter w = Ok w1 →
      V1.run t w1 = Ok w' →
      V1.step V1.CallGo w' = Panic "A Group must must not be reused.") ∧
  (∀ (w : V2.World) (p : V2.goroutine),
      V2.g (V2.gr (V2.Go p w)) = S (V2.g (V2.gr w)) ∧
      V2.procs (V2.Go p w) !! V2.next w = Some p ∧
      V2.step V2.CallGo w = Ok (V2.Go V2.plain w) ∧
      (∀ s, V2.step (V2.CallGoCancelOnFinish s) w = Ok (V2.Go (V2.cancelOnFinish s) w)) ∧
      (∀ s, V2.step (V2.CallGoCancelOnSuccess s) w = Ok (V2.Go (V2.cancelOnSuccess s) w)) ∧
      (∀ s, V2.step (V2.CallGoCancelOnError s) w = Ok (V2.Go (V2.cancelOnError s) w))).
Proof.
  split.
  - intros w w1 w' t Hs Hr. simpl in Hs. unfold V1.wait_enter in Hs.
    inv_res. subst w1.
    match goal with H : V1.Wait_enter _ = Ok ?x |- _ =>
      unfold V1.Wait_enter, V1.checkInitialized in H;
      destruct (V1.ctx (V1.gr w)) as [c|] eqn:Hc; [| done]; simpl in H;
      injection H as <- end.
    destruct (V1Props.run_keeps _ _ _ Hr) as (_ & H2 & H3).
    simpl in H2, H3. specialize (H2 eq_refl). destruct H3 as [c' Hc']; [by eexists |].
    simpl. unfold V1.Go, V1.checkInitialized, V1.checkReuse.
    by rewrite Hc', H2.
  - intros w p. split_and!; try done.
    + simpl. by rewrite V2Props.getContext_g.
    + simpl. apply lookup_insert_eq.
Qed.

(** [New], [Wait], then [Go]: the [Go] panics. *)
Lemma go_after_wait_witness :
  ∃ w', V1.run [V1.WaitEnter; V1.WaitReturn] (V1.New None) = Ok w' ∧
        V1.out w' = [None] ∧
        V1.step V1.CallGo w' = Panic "A Group must must not be reused.".
Proof.
  eexists. split_and!; [reflexivity | reflexivity |].
  lazymatch goal with
  | |- V1.step _ ?a = _ =>
      eapply (proj1 go_after_wait (V1.New None) _ a [V1.WaitReturn]);
        reflexivity
  end.
Defined.

(** C4, as stated, fails for v1: every method of a zero-value v1 Group
    panics in [checkInitialized], where the same call on a Group made by
    [New(context.Background())] completes. *)
Lemma zero_value_v1_panics :
  V1.step V1.CallGo V1.zero =
    Panic "A Group must be created by New or NewTimeout, zero value must not be used." ∧
  V1.step V1.CallCancel V1.zero =
    Panic "A Group must be created by New or NewTimeout, zero value must not be used." ∧
  V1.step V1.WaitEnter V1.zero =
    Panic "A Group must be created by New or NewTimeout, zero value must not be used." ∧
  is_Ok (V1.step V1.CallGo (V1.New None)) = true ∧
  is_Ok (V1.step V1.CallCancel (V1.New None)) = true ∧
  is_Ok (V1.step V1.WaitEnter (V1.New None)) = true.
Proof. split_and!; reflexivity. Qed.

(** C4, amended to v2.  The first [getContext] on a zero-value Group
    makes it the Group that [New(context.Background())] returns, and
    [getContext] on a Group that has its context changes nothing, so the
    context is made once.  Every event (a call of [Cancel], [Close],
    [Go], the [GoCancelOn...] methods, [SetTimeout] or [Wait], or a step
    of the environment) has on the zero value the outcome it has on the
    constructed Group, and so has every run that starts there: same
    panics, same blocked steps, same final Group, goroutines and values
    returned by [Wait]. *)
Theorem zero_value_v2 :
  V2.set_gr V2.zero (V2.getContext (V2.gr V2.zero)) = V2.New None ∧
  (∀ gr : V2.Group, V2.getContext (V2.getContext gr) = V2.getContext gr) ∧
  (∀ e : V2.event, V2.step e V2.zero = V2.step e (V2.New None)) ∧
  (∀ (e : V2.event) (t : list V2.event),
      V2.run (e :: t) V2.zero = V2.run (e :: t) (V2.New None)).
Proof.
  assert (∀ e : V2.event, V2.step e V2.zero = V2.step e (V2.New None)) as Hstep.
  { intros []; try reflexivity. }
  split_and!.
  - reflexivity.
  - apply V2Props.getContext_idem.
  - exact Hstep.
  - intros e t. simpl. by rewrite Hstep.
Qed.

(** C5, as stated, fails for v2: the goroutine of [SetTimeout] is not
    counted.  After [SetTimeout] on a zero Group the counter is still
    zero and [Wait] returns nil at once, the timer goroutine still
    running; a v1 Group made by [NewTimeout] makes [Wait] block. *)
Lemma set_timeout_v2_not_counted :
  (∃ w', V2.run [V2.CallSetTimeout [Frame "main.go" 7 "main"];
                 V2.WaitEnter; V2.WaitReturn] V2.zero = Ok w' ∧
         V2.g (V2.gr w') = 0 ∧
         V2.out w' = [None] ∧
         V2.procs w' !! 0 = Some (V2.timeout [Frame "main.go" 7 "main"])) ∧
  (w0 ← V1.NewTimeout None; V1.run [V1.WaitEnter; V1.WaitReturn] w0) = Disabled.
Proof.
  split; [| reflexivity].
  eexists. split_and!; reflexivity.
Qed.

(** C5, amended.  v1: [NewTimeout] is [New] followed by one [Go]: the
    task is counted; when its timer fires first it returns
    [context.DeadlineExceeded], which [setResult] records if nothing was
    recorded before, cancelling the context; when the Group's context is
    done first it returns the error of that context, and it cannot
    return before one of the two.  v2: [SetTimeout] leaves the counter as
    it is and starts one goroutine outside the wait group; when its
    timer fires on a context that is not done, the recorded cause becomes
    [context.DeadlineExceeded] with the call site of [SetTimeout]; when
    the context is done first, the goroutine ends without touching the
    Group, and it cannot take that branch before the context is done. *)
Theorem timeout_task :
  (∀ p : option context.cancelCtx,
      V1.NewTimeout p = V1.Go V1.deadline (V1.New p) ∧
      ∃ w0, V1.NewTimeout p = Ok w0 ∧
            V1.wg (V1.gr w0) = 1 ∧
            V1.procs w0 !! 0 = Some V1.deadline) ∧
  (∀ (w : V1.World) (id : nat) (c : context.cancelCtx),
      V1.procs w !! id = Some V1.deadline →
      V1.ctx (V1.gr w) = Some c →
      V1.wg (V1.gr w) ≠ 0 →
      (∃ w', V1.step (V1.TimeoutFire id) w = Ok w' ∧
             S (V1.wg (V1.gr w')) = V1.wg (V1.gr w) ∧
             V1.err (V1.gr w') =
               (if V1.errOnce (V1.gr w) then V1.err (V1.gr w)
                else Some context.DeadlineExceeded) ∧
             (V1.errOnce (V1.gr w) = false → V1.cancelled (V1.gr w') = true)) ∧
      (∀ e, context.Err c = Some e →
            ∃ w', V1.step (V1.TimeoutCtxDone id) w = Ok w' ∧
                  S (V1.wg (V1.gr w')) = V1.wg (V1.gr w) ∧
                  V1.err (V1.gr w') =
                    (if V1.errOnce (V1.gr w) then V1.err (V1.gr w) else Some e)) ∧
      (context.Err c = None → V1.step (V1.TimeoutCtxDone id) w = Disabled)) ∧
  (∀ (w : V2.World) (s : callers),
      V2.g (V2.gr (V2.SetTimeout s w)) = V2.g (V2.gr w) ∧
      V2.procs (V2.SetTimeout s w) !! V2.next w = Some (V2.timeout s) ∧
      V2.step (V2.CallSetTimeout s) w = Ok (V2.SetTimeout s w)) ∧
  (∀ (w : V2.World) (id : nat) (s : callers),
      V2.procs w !! id = Some (V2.timeout s) →
      is_Some (V2.ctx (V2.gr w)) →
      (V2.cancelled (V2.gr w) = false →
       (∃ w', V2.step (V2.TimerFire id) w = Ok w' ∧
              V2.recorded (V2.gr w') =
                Some (stError context.DeadlineExceeded s) ∧
              V2.g (V2.gr w') = V2.g (V2.gr w)) ∧
       V2.step (V2.TimerCtxDone id) w = Disabled) ∧
      (V2.cancelled (V2.gr w) = true →
       V2.step (V2.TimerCtxDone id) w = Ok (V2.exit id w) ∧
       V2.gr (V2.exit id w) = V2.gr w)).
Proof.
  split_and!.
  - intros p. split; [done |]. eexists. split_and!; reflexivity.
  - intros w id c Hp Hc Hg.
    assert (∀ r, ∃ w', V1.finish id r w = Ok w' ∧
              S (V1.wg (V1.gr w')) = V1.wg (V1.gr w) ∧
              V1.err (V1.gr w') =
                (if V1.errOnce (V1.gr w) then V1.err (V1.gr w) else r) ∧
              (V1.errOnce (V1.gr w) = false → V1.cancelled (V1.gr w') = true))
      as Hfin.
    { intros r.
      assert (∃ w', V1.finish id r w = Ok w') as [w' Hw'].
      { unfold V1.finish, V1.setResult. rewrite Hc.
        destruct (V1.errOnce (V1.gr w)); simpl; unfold V1.wg_Done; simpl;
          (destruct (V1.wg (V1.gr w)); [done | by eexists]). }
      exists w'. split; [done |].
      apply V1Props.finish_spec in Hw'. destruct Hw' as (_ & ? & _ & _ & ? & ?).
      by split_and!. }
    split_and!.
    + simpl. unfold V1.timeout_fire. rewrite Hp. apply Hfin.
    + intros e He. simpl. unfold V1.timeout_ctx_done. rewrite Hp, Hc, He.
      destruct (Hfin (Some e)) as (w' & ? & ? & ? & _). by exists w'.
    + intros He. simpl. unfold V1.timeout_ctx_done. by rewrite Hp, Hc, He.
  - intros w s. split_and!; [| | done].
    + simpl. apply V2Props.getContext_g.
    + simpl. apply lookup_insert_eq.
  - intros w id s Hp Hc. split.
    + intros Hd. split.
      * simpl. unfold V2.timer_fire. rewrite Hp.
        rewrite (V2Props.gr_cancel_first _ _ Hc Hd). simpl.
        eexists. split_and!; reflexivity.
      * simpl. unfold V2.timer_ctx_done. rewrite Hp.
        unfold V2.cancelled in Hd. destruct (V2.ctx (V2.gr w)); [| done].
        by rewrite Hd.
    + intros Hd. split; [| done].
      simpl. unfold V2.timer_ctx_done. rewrite Hp.
      unfold V2.cancelled in Hd. destruct (V2.ctx (V2.gr w)); [| done].
      by rewrite Hd.
Qed.

(** A v1 Group made by [NewTimeout] whose timer fires, and a zero v2
    Group with [SetTimeout] whose timer fires. *)
Lemma timeout_task_witness :
  (∃ w0 w', V1.NewTimeout None = Ok w0 ∧
            V1.step (V1.TimeoutFire 0) w0 = Ok w' ∧
            V1.err (V1.gr w') = Some context.DeadlineExceeded) ∧
  (∃ w', V2.step (V2.TimerFire 0) (V2.SetTimeout [Frame "main.go" 7 "main"] V2.zero)
           = Ok w' ∧
         V2.recorded (V2.gr w') =
           Some (stError context.DeadlineExceeded [Frame "main.go" 7 "main"])) ∧
  (∃ w1, V2.run [V2.CallSetTimeout []; V2.CallCancel None []] V2.zero = Ok w1 ∧
         V2.step (V2.TimerCtxDone 0) w1 = Ok (V2.exit 0 w1)).
Proof.
  destruct timeout_task as (_ & H1 & _ & H2). split_and!.
  - eexists. 
    lazymatch goal with
    | |- ∃ w', V1.NewTimeout None = Ok ?a ∧ _ =>
        assert (V1.NewTimeout None = Ok a) as E by reflexivity;
        destruct (H1 a 0 context.fresh eq_refl eq_refl ltac:(done))
          as ((w' & Hs & _ & He & _) & _ & _);
        exists w'; split_and!; [exact E | exact Hs | exact He]
    end.
  - destruct (H2 (V2.SetTimeout [Frame "main.go" 7 "main"] V2.zero) 0
                [Frame "main.go" 7 "main"] eq_refl (mk_is_Some _ _ eq_refl))
      as [H _].
    destruct (H eq_refl) as [(w' & Hs & Hr & _) _].
    exists w'. split; [exact Hs | exact Hr].
  - eexists. split; [reflexivity |].
    lazymatch goal with
    | |- V2.step _ ?a = _ =>
        exact (proj1 (proj2 (H2 a 0 [] eq_refl (mk_is_Some _ _ eq_refl)) eq_refl))
    end.
Defined.

(** C6.  v2, a Group whose context is not yet done.  When the task of
    [GoCancelOnSuccess] returns, the context is done afterwards exactly
    if the task returned nil, with cause [context.Canceled] at the call
    site of [GoCancelOnSuccess]; on a failure the context is untouched.
    When the task of [GoCancelOnError] returns, the context is done
    afterwards exactly if the task returned an error, and that error,
    wrapped with the call site, is the recorded cause; on nil the context
    is untouched.  In all cases the counter goes down by one and the other
    goroutines stay as they are. *)
Theorem cancel_on_success_and_on_error :
  ∀ (w : V2.World) (id : nat) (s : callers) (r : option error),
    is_Some (V2.ctx (V2.gr w)) →
    V2.g (V2.gr w) ≠ 0 →
    V2.cancelled (V2.gr w) = false →
    (V2.procs w !! id = Some (V2.cancelOnSuccess s) →
     ∃ w', V2.step (V2.TaskReturn id r) w = Ok w' ∧
           (V2.cancelled (V2.gr w') = true ↔ r = None) ∧
           (r = None →
            V2.recorded (V2.gr w') = Some (stError context.Canceled s)) ∧
           (r ≠ None → V2.ctx (V2.gr w') = V2.ctx (V2.gr w)) ∧
           S (V2.g (V2.gr w')) = V2.g (V2.gr w) ∧
           V2.procs w' = delete id (V2.procs w)) ∧
    (V2.procs w !! id = Some (V2.cancelOnError s) →
     ∃ w', V2.step (V2.TaskReturn id r) w = Ok w' ∧
           (V2.cancelled (V2.gr w') = true ↔ r ≠ None) ∧
           (∀ e, r = Some e →
                 V2.recorded (V2.gr w') = Some (stError e s) ∧
                 errors.Is (V2.recorded (V2.gr w')) (Some e) = true) ∧
           (r = None → V2.ctx (V2.gr w') = V2.ctx (V2.gr w)) ∧
           S (V2.g (V2.gr w')) = V2.g (V2.gr w) ∧
           V2.procs w' = delete id (V2.procs w)).
Proof.
  intros w id s r Hc Hg Hd.
  destruct (V2.g (V2.gr w)) as [|n] eqn:Hn; [done |].
  split; intros Hp.
  - destruct r as [e|].
    + destruct (V2_task_return_spec w id _ (Some e) (V2.gr w) n Hp eq_refl Hn)
        as [Hs _].
      eexists. split; [exact Hs |]. simpl. split_and!; try done.
      unfold V2.cancelled in *. simpl. rewrite Hd. split; done.
    + destruct (V2_task_return_spec w id _ None _ n Hp
                  (V2Props.gr_cancel_first _ _ Hc Hd) Hn) as [Hs _].
      eexists. split; [exact Hs |]. simpl. split_and!; done.
  - destruct r as [e|].
    + destruct (V2_task_return_spec w id _ (Some e) _ n Hp
                  (V2Props.gr_cancel_first _ _ Hc Hd) Hn) as [Hs _].
      eexists. split; [exact Hs |]. simpl. split_and!; try done.
      intros e' [= <-]. split; [done |]. simpl.
      apply (is_NewError e e s), is_refl.
    + destruct (V2_task_return_spec w id _ None (V2.gr w) n Hp eq_refl Hn)
        as [Hs _].
      eexists. split; [exact Hs |]. simpl. split_and!; try done.
      unfold V2.cancelled in *. simpl. rewrite Hd. split; done.
Qed.

(** Two helpers and two deciding tasks on a zero Group: the task of
    [GoCancelOnSuccess] fails and cancels nothing, the task of
    [GoCancelOnError] fails and its error becomes the cause. *)
Lemma cancel_on_success_and_on_error_witness :
  (∃ w', V2.step (V2.TaskReturn 0 (Some (errorString "stop")))
           (V2.GoCancelOnSuccess [Frame "main.go" 3 "main"] V2.zero) = Ok w' ∧
         V2.cancelled (V2.gr w') = false) ∧
  (∃ w', V2.step (V2.TaskReturn 0 (Some (errorString "stop")))
           (V2.GoCancelOnError [Frame "main.go" 4 "main"] V2.zero) = Ok w' ∧
         V2.recorded (V2.gr w') =
           Some (stError (errorString "stop") [Frame "main.go" 4 "main"])).
Proof.
  split.
  - destruct (cancel_on_success_and_on_error
                (V2.GoCancelOnSuccess [Frame "main.go" 3 "main"] V2.zero) 0
                [Frame "main.go" 3 "main"] (Some (errorString "stop"))
                (mk_is_Some _ _ eq_refl) ltac:(done) eq_refl) as [H _].
    destruct (H eq_refl) as (w' & Hs & Hiff & _).
    exists w'. split; [exact Hs |].
    destruct (V2.cancelled (V2.gr w')); [| reflexivity].
    discriminate (proj1 Hiff eq_refl).
  - destruct (cancel_on_success_and_on_error
                (V2.GoCancelOnError [Frame "main.go" 4 "main"] V2.zero) 0
                [Frame "main.go" 4 "main"] (Some (errorString "stop"))
                (mk_is_Some _ _ eq_refl) ltac:(done) eq_refl) as [_ H].
    destruct (H eq_refl) as (w' & Hs & _ & Hrec & _).
    exists w'. split; [exact Hs |]. exact (proj1 (Hrec _ eq_refl)).
Defined.

(** C7, as stated, fails for v1: when a task registered with v1's [Go]
    returns nil, the context is cancelled but the recorded result is nil,
    not [context.Canceled], and [Wait] returns nil. *)
Lemma go_v1_records_nil :
  ∃ w', V1.run [V1.CallGo; V1.TaskReturn 0 None] (V1.New None) = Ok w' ∧
        V1.cancelled (V1.gr w') = true ∧
        V1.errOnce (V1.gr w') = true ∧
        V1.err (V1.gr w') = None ∧
        snd <$> V1.Wait (V1.gr w') = Ok None ∧
        errors.Is None (Some context.Canceled) = false.
Proof. eexists. split_and!; reflexivity. Qed.

(** C7, amended.  v2, [GoCancelOnFinish] on a context that is not done:
    when the task returns, the context is done whatever it returned; the
    recorded cause is the task's error, or [context.Canceled] if it
    returned nil, wrapped with the call site of [GoCancelOnFinish].  v1,
    [Go] on a Group with no result yet: when the task returns, the
    context is done whatever it returned, and the recorded result is the
    returned value as it is, nil included. *)
Theorem cancel_on_finish :
  (∀ (w : V2.World) (id : nat) (s : callers) (r : option error),
      V2.procs w !! id = Some (V2.cancelOnFinish s) →
      is_Some (V2.ctx (V2.gr w)) →
      V2.g (V2.gr w) ≠ 0 →
      V2.cancelled (V2.gr w) = false →
      ∃ w', V2.step (V2.TaskReturn id r) w = Ok w' ∧
            V2.cancelled (V2.gr w') = true ∧
            V2.recorded (V2.gr w') =
              Some (stError (default context.Canceled r) s) ∧
            errors.Is (V2.recorded (V2.gr w'))
              (Some (default context.Canceled r)) = true ∧
            S (V2.g (V2.gr w')) = V2.g (V2.gr w)) ∧
  (∀ (w : V1.World) (id : nat) (r : option error),
      V1.procs w !! id = Some V1.task →
      is_Some (V1.ctx (V1.gr w)) →
      V1.wg (V1.gr w) ≠ 0 →
      V1.errOnce (V1.gr w) = false →
      ∃ w', V1.step (V1.TaskReturn id r) w = Ok w' ∧
            V1.cancelled (V1.gr w') = true ∧
            V1.errOnce (V1.gr w') = true ∧
            V1.err (V1.gr w') = r ∧
            S (V1.wg (V1.gr w')) = V1.wg (V1.gr w)).
Proof.
  split.
  - intros w id s r Hp Hc Hg Hd.
    destruct (V2.g (V2.gr w)) as [|n] eqn:Hn; [done |].
    destruct (V2_task_return_spec w id _ r _ n Hp
                (V2Props.gr_cancel_first _ _ Hc Hd) Hn) as [Hs _].
    eexists. split; [exact Hs |]. simpl. split_and!; try done.
    simpl. apply (is_NewError _ _ s), is_refl.
  - intros w id r Hp [c Hc] Hg Ho.
    assert (∃ w', V1.finish id r w = Ok w') as [w' Hw'].
    { unfold V1.finish. rewrite (V1Props.setResult_first _ _ _ Ho Hc). simpl.
      unfold V1.wg_Done. simpl. destruct (V1.wg (V1.gr w)); [done | by eexists]. }
    exists w'. simpl. unfold V1.task_return. rewrite Hp. split; [done |].
    apply V1Props.finish_spec in Hw'.
    destruct Hw' as (? & ? & _ & _ & He & Hd). rewrite Ho in He.
    split_and!; auto.
Qed.

(** The task of [GoCancelOnFinish] returns nil on a zero v2 Group; the
    task of [Go] returns an error on a v1 Group. *)
Lemma cancel_on_finish_witness :
  (∃ w', V2.step (V2.TaskReturn 0 None)
           (V2.GoCancelOnFinish [Frame "main.go" 5 "main"] V2.zero) = Ok w' ∧
         V2.recorded (V2.gr w') =
           Some (stError context.Canceled [Frame "main.go" 5 "main"])) ∧
  (∃ w0 w', V1.Go V1.task (V1.New None) = Ok w0 ∧
            V1.step (V1.TaskReturn 0 (Some (errorString "task failed"))) w0 = Ok w' ∧
            V1.err (V1.gr w') = Some (errorString "task failed")).
Proof.
  destruct cancel_on_finish as [H1 H2]. split.
  - destruct (H1 (V2.GoCancelOnFinish [Frame "main.go" 5 "main"] V2.zero) 0
                [Frame "main.go" 5 "main"] None eq_refl (mk_is_Some _ _ eq_refl)
                ltac:(done) eq_refl) as (w' & Hs & _ & Hr & _).
    exists w'. split; [exact Hs | exact Hr].
  - eexists.
    lazymatch goal with
    | |- ∃ w', V1.Go V1.task (V1.New None) = Ok ?a ∧ _ =>
        assert (V1.Go V1.task (V1.New None) = Ok a) as E by reflexivity;
        destruct (H2 a 0 (Some (errorString "task failed")) eq_refl
                    (mk_is_Some _ _ eq_refl) ltac:(done) eq_refl)
          as (w' & Hs & _ & _ & He & _);
        exists w'; split_and!; [exact E | exact Hs | exact He]
    end.
Defined.

(** C8.  v2: when [Cancel(nil)] is the first cancellation, the recorded
    cause is [context.Canceled] with the call site of that [Cancel],
    whatever happens afterwards, and a [Wait] that finds the counter at
    zero returns it: a non-nil error that [errors.Is] matches with
    [context.Canceled].  v1, whose [Cancel] takes no cause: when
    [Cancel()] comes before any result, [Wait] returns
    [context.Canceled]. *)
Theorem cancel_nil_is_canceled :
  (∀ (w w' : V2.World) (s : callers) (t : list V2.event),
      V2.cancelled (V2.gr w) = false →
      V2.run (V2.CallCancel None s :: t) w = Ok w' →
      V2.recorded (V2.gr w') = Some (stError context.Canceled s) ∧
      (V2.g (V2.gr w') = 0 →
       ∃ e, V2.Wait (V2.gr w') = Ok (V2.gr w', Some e) ∧
            errors.Is (Some e) (Some context.Canceled) = true)) ∧
  (∀ (w w' : V1.World) (t : list V1.event),
      is_Some (V1.ctx (V1.gr w)) →
      V1.errOnce (V1.gr w) = false →
      V1.run (V1.CallCancel :: t) w = Ok w' →
      V1.err (V1.gr w') = Some context.Canceled ∧
      (V1.wg (V1.gr w') = 0 →
       snd <$> V1.Wait (V1.gr w') = Ok (Some context.Canceled))).
Proof.
  split.
  - intros w w' s t Hd Hr.
    pose proof (FirstCancel.V2_Cancel_then_run _ _ _ _ _ Hd Hr) as Hc.
    split; [unfold V2.recorded; by rewrite Hc |].
    intros Hg. eexists. split; [by apply (FirstCancel.V2_Wait_ctx _ _ Hc Hg) |].
    reflexivity.
  - intros w w' t Hc Ho Hr.
    destruct (FirstCancel.V1_Cancel_then_run _ _ _ Hc Ho Hr) as (Ho' & He & Hc').
    split; [done |]. intros Hg. rewrite <- He.
    by apply FirstCancel.V1_Wait_recorded.
Qed.

(** The test "Cancel" of v2: two tasks wait for the context, the caller
    calls [Cancel(nil)], the tasks return; and [Cancel()] on a fresh v1
    Group. *)
Lemma cancel_nil_is_canceled_witness :
  (∃ w' e,
      V2.run [V2.CallGo; V2.CallGo; V2.CallCancel None [Frame "group_test.go" 91 "func2"];
              V2.TaskReturn 0 None; V2.TaskReturn 1 None] (V2.New None) = Ok w' ∧
      V2.Wait (V2.gr w') = Ok (V2.gr w', Some e) ∧
      errors.Is (Some e) (Some context.Canceled) = true) ∧
  (∃ w', V1.run [V1.CallCancel] (V1.New None) = Ok w' ∧
         snd <$> V1.Wait (V1.gr w') = Ok (Some context.Canceled)).
Proof.
  destruct cancel_nil_is_canceled as [H1 H2]. split.
  - eexists.
    lazymatch goal with
    | |- ∃ e, V2.run _ _ = Ok ?a ∧ _ =>
        assert (V2.run [V2.CallGo; V2.CallGo;
                        V2.CallCancel None [Frame "group_test.go" 91 "func2"];
                        V2.TaskReturn 0 None; V2.TaskReturn 1 None] (V2.New None)
                = Ok a) as E by reflexivity;
        destruct (H1 (V2.Go V2.plain (V2.Go V2.plain (V2.New None))) a
                    [Frame "group_test.go" 91 "func2"]
                    [V2.TaskReturn 0 None; V2.TaskReturn 1 None]
                    eq_refl eq_refl) as [_ Hw];
        destruct (Hw eq_refl) as (e & Hwait & His);
        exists e; split_and!; [exact E | exact Hwait | exact His]
    end.
  - eexists. split; [reflexivity |].
    lazymatch goal with
    | |- _ <$> V1.Wait (V1.gr ?a) = _ =>
        exact (proj2 (H2 (V1.New None) a [] (mk_is_Some _ _ eq_refl) eq_refl eq_refl)
                 eq_refl)
    end.
Defined.





(** * Further properties of whole runs *)

(** ** rungroup/v2 *)

Module V2RunProps.
Import V2 V2Run.

Lemma outstanding_insert_tracked (w : World) (p : goroutine) (gr' : Group) :
  (∀ id, next w ≤ id → procs w !! id = None) →
  tracked p = true →
  outstanding (go p (set_gr w gr')) = S (outstanding w).
Proof.
  intros Hf Hp. unfold outstanding. simpl.
  rewrite map_filter_insert_True by done.
  apply map_size_insert_None, map_lookup_filter_None_2. left. by apply Hf.
Qed.

Lemma outstanding_insert_timeout (w : World) (s : callers) (gr' : Group) :
  (∀ id, next w ≤ id → procs w !! id = None) →
  outstanding (go (timeout s) (set_gr w gr')) = outstanding w.
Proof.
  intros Hf. unfold outstanding. simpl.
  apply (f_equal size), map_filter_insert_not'; [done |].
  intros y Hy. by rewrite Hf in Hy.
Qed.

Lemma outstanding_delete_tracked (w : World) (id : nat) (p : goroutine) :
  procs w !! id = Some p → tracked p = true →
  outstanding w = S (outstanding (exit id w)).
Proof.
  intros Hl Hp. unfold outstanding. simpl. rewrite map_filter_delete.
  assert (filter (λ kv : nat * goroutine, tracked kv.2 = true) (procs w) !! id
          = Some p) as Hf by (by apply map_lookup_filter_Some_2).
  rewrite map_size_delete_Some by (by eexists).
  pose proof (map_size_ne_0_lookup_2 _ id (mk_is_Some _ _ Hf)).
  lia.
Qed.

Lemma outstanding_delete_timeout (w : World) (id : nat) (s : callers) :
  procs w !! id = Some (timeout s) →
  outstanding (exit id w) = outstanding w.
Proof.
  intros Hl. unfold outstanding. simpl.
  apply (f_equal size), map_filter_delete_not.
  intros y Hy. rewrite Hl in Hy. by injection Hy as <-.
Qed.

Lemma outstanding_set_gr (w : World) (x : Group) :
  outstanding (set_gr w x) = outstanding w.
Proof. done. Qed.

Lemma Cancel_total (c : option error) (s : callers) (gr : Group) :
  ∃ gr', Cancel c s gr = Ok gr' ∧ g gr' = g gr ∧ is_Some (ctx gr') ∧
         cancelled gr' = true.
Proof.
  unfold Cancel. destruct (V2Props.getContext_is_Some gr) as [x Hx].
  unfold cancel. rewrite Hx. eexists. split; [done |]. simpl.
  rewrite V2Props.getContext_g. split_and!; [done | by eexists |].
  unfold cancelled. simpl. apply contextProps.done_cancel.
Qed.

Lemma gr_cancel_total (x : error) (gr : Group) :
  is_Some (ctx gr) →
  ∃ gr', cancel x gr = Ok gr' ∧ g gr' = g gr ∧ is_Some (ctx gr').
Proof.
  intros [c Hc]. unfold cancel. rewrite Hc. eexists. split; [done |].
  simpl. split; [done | by eexists].
Qed.

Lemma after_task_total (p : goroutine) (r : option error) (gr : Group) :
  is_Some (ctx gr) → tracked p = true →
  ∃ gr', after_task p r gr = Ok gr' ∧ g gr' = g gr ∧ is_Some (ctx gr').
Proof.
  intros Hc Hp.
  destruct p, r; simpl; try done; try (by apply gr_cancel_total); by exists gr.
Qed.

Lemma v2_inv_initial (w : World) : initial w → inv w.
Proof.
  intros [-> | [p ->]]; (split_and!; [done | done | | done]);
    intros id q Hq; simpl in Hq; by rewrite lookup_empty in Hq.
Qed.


(** Every step keeps the bookkeeping and does not panic. *)
Lemma v2_step_inv (e : event) (w : World) :
  inv w →
  is_Panic (step e w) = false ∧ ∀ w', step e w = Ok w' → inv w'.
Proof.
  intros (Hg & Hf & Hp & Hw).
  assert (∀ gr', g gr' = g (gr w) → is_Some (ctx gr') → inv (set_gr w gr'))
    as Hset.
  { intros gr' Hg' Hc'. unfold inv. simpl. rewrite outstanding_set_gr.
    split_and!; auto. congruence. }
  assert (∀ p, tracked p = true → inv (Go p w)) as HGo.
  { intros p Ht. unfold Go, inv.
    rewrite (outstanding_insert_tracked _ _ _ Hf Ht). simpl.
    rewrite V2Props.getContext_g, Hg. split_and!; [done | | |].
    - intros id Hid. rewrite lookup_insert_ne by lia. apply Hf. lia.
    - intros _ _ _. apply V2Props.getContext_is_Some.
    - intros _. apply V2Props.getContext_is_Some. }
  destruct e; simpl.
  - destruct (Cancel_total cause site (gr w)) as (gr' & -> & ? & ? & _).
    split; [done |]. intros w' [= <-]. by apply Hset.
  - unfold Close.
    destruct (Cancel_total (Some (stacktrace.NewError ErrClosed site))
                (Close_frame :: site) (gr w)) as (gr' & -> & ? & ? & _).
    split; [done |]. intros w' [= <-]. by apply Hset.
  - split; [done |]. intros w' [= <-]. by apply HGo.
  - split; [done |]. intros w' [= <-]. by apply HGo.
  - split; [done |]. intros w' [= <-]. by apply HGo.
  - split; [done |]. intros w' [= <-]. by apply HGo.
  - split; [done |]. intros w' [= <-]. unfold SetTimeout, inv.
    rewrite (outstanding_insert_timeout _ _ _ Hf). simpl.
    rewrite V2Props.getContext_g. split_and!; [done | | |].
    + intros id Hid. rewrite lookup_insert_ne by lia. apply Hf. lia.
    + intros _ _ _. apply V2Props.getContext_is_Some.
    + intros _. apply V2Props.getContext_is_Some.
  - split; [done |]. intros w' [= <-]. unfold wait_enter, inv, Wait_enter. simpl.
    rewrite V2Props.getContext_g. split_and!; [done | done | |].
    + intros _ _ _. apply V2Props.getContext_is_Some.
    + intros _. apply V2Props.getContext_is_Some.
  - unfold wait_return. destruct (waiters w) as [|n] eqn:Hn; [done |].
    destruct (Hw ltac:(done)) as [c Hc].
    unfold Wait_return, wg_Wait, Cause. rewrite Hc.
    destruct (decide (g (gr w) = 0)); simpl; [| done].
    split; [done |]. intros w' [= <-]. unfold inv. simpl.
    split_and!; [done | done | done |]. intros _. by eexists.
  - unfold task_return. destruct (procs w !! id) as [p|] eqn:Hl; [| done].
    destruct (tracked p) eqn:Ht.
    + destruct (after_task_total p r (gr w) (Hp _ _ Hl) Ht)
        as (gr1 & -> & Hg1 & Hc1). simpl.
      pose proof (outstanding_delete_tracked w id p Hl Ht) as Ho.
      unfold wg_Done. rewrite Hg1, Hg, Ho.
      split; [done |]. intros w' [= <-]. unfold inv. simpl.
      split_and!; [done | | |].
      * intros j Hj. destruct (decide (j = id)) as [->|];
          [apply lookup_delete_eq | rewrite lookup_delete_ne by done; by apply Hf].
      * intros _ _ _. done.
      * intros _. done.
    + by destruct p.
  - unfold timer_fire. destruct (procs w !! id) as [[]|] eqn:Hl; try done.
    destruct (gr_cancel_total (stacktrace.NewError context.DeadlineExceeded cs) (gr w)
                (Hp _ _ Hl)) as (gr1 & -> & Hg1 & Hc1). simpl.
    split; [done |]. intros w' [= <-]. unfold inv.
    rewrite (outstanding_delete_timeout (set_gr w gr1) id cs Hl). simpl.
    rewrite outstanding_set_gr.
    split_and!; [congruence | | done | done].
    intros j Hj. destruct (decide (j = id)) as [->|];
      [apply lookup_delete_eq | rewrite lookup_delete_ne by done; by apply Hf].
  - unfold timer_ctx_done. destruct (procs w !! id) as [[]|] eqn:Hl; try done.
    destruct (ctx (gr w)) as [c|] eqn:Hc; [| done].
    destruct (context.done c); [| done].
    split; [done |]. intros w' [= <-]. unfold inv.
    rewrite (outstanding_delete_timeout w id cs Hl). simpl. rewrite Hc.
    split_and!; [done | | by eexists | by eexists].
    intros j Hj. destruct (decide (j = id)) as [->|];
      [apply lookup_delete_eq | rewrite lookup_delete_ne by done; by apply Hf].
  - unfold parent_cancel. destruct (parent w); [| done].
    split; [done |]. intros w' [= <-]. unfold inv. simpl.
    assert (∀ o : option context.cancelCtx, is_Some o →
              is_Some (context.propagate (context.cancel e (Some cause) c) <$> o))
      as Hfm by (intros o [x ->]; by eexists).
    split_and!; [done | done | |].
    + intros j q Hq. apply Hfm. by eapply Hp.
    + intros Hn. by apply Hfm, Hw.
Qed.

Lemma v2_run_inv (t : list event) (w : World) :
  inv w →
  is_Panic (run t w) = false ∧ ∀ w', run t w = Ok w' → inv w'.
Proof.
  revert w. induction t as [|e t IH]; intros w Hi; simpl.
  - split; [done |]. by intros w' [= <-].
  - destruct (v2_step_inv e w Hi) as [Hp Hs].
    destruct (step e w) as [w1| |] eqn:E; simpl; try done.
    apply IH. by apply Hs.
Qed.

End V2RunProps.

Module V2Counter.
Import V2 V2Run.

(** v2: [Wait] is able to return exactly when the counter is zero. *)
Lemma v2_Wait_ok_iff (gr : Group) : is_Ok (Wait gr) = true ↔ g gr = 0.
Proof.
  destruct (decide (g gr = 0)) as [Hg|Hg].
  - by rewrite (WaitProps.V2_Wait_spec _ Hg).
  - by rewrite (WaitProps.V2_Wait_blocks _ Hg).
Qed.

Lemma outstanding_zero (w : World) :
  outstanding w = 0 ↔ ∀ id p, procs w !! id = Some p → tracked p = false.
Proof.
  unfold outstanding. rewrite map_size_empty_iff, map_empty_filter.
  unfold map_Forall. simpl. split; intros H id p Hl; specialize (H id p Hl).
  - by destruct (tracked p).
  - by rewrite H.
Qed.

(** X1.  v2: in every world a run reaches from the zero value or from
    [New], the counter of the wait group is the number of running
    goroutines that were started through [gr.g.Go]; so a call of [Wait]
    can return exactly when no such goroutine is left, whether or not
    goroutines of [SetTimeout] are still running. *)
Theorem counter_counts_registered_tasks :
  ∀ (w0 w' : World) (t : list event),
    initial w0 →
    run t w0 = Ok w' →
    g (gr w') = outstanding w' ∧
    (is_Ok (Wait (gr w')) = true ↔
     ∀ id p, procs w' !! id = Some p → tracked p = false).
Proof.
  intros w0 w' t H0 Hr.
  destruct (V2RunProps.v2_run_inv t w0 (V2RunProps.v2_inv_initial _ H0)) as [_ Hi].
  destruct (Hi _ Hr) as (Hg & _).
  split; [done |]. by rewrite v2_Wait_ok_iff, Hg, outstanding_zero.
Qed.

(** A plain task, a timer and a [GoCancelOnError] task; the plain task
    returns. *)
Lemma counter_counts_registered_tasks_witness :
  ∃ w', run [CallGo; CallSetTimeout []; CallGoCancelOnError [];
             TaskReturn 0 None] zero = Ok w' ∧
        g (gr w') = outstanding w' ∧ g (gr w') = 1.
Proof.
  eexists. split; [reflexivity |].
  lazymatch goal with
  | |- g (gr ?a) = _ ∧ _ =>
      split; [exact (proj1 (counter_counts_registered_tasks zero a
                              [CallGo; CallSetTimeout []; CallGoCancelOnError [];
                               TaskReturn 0 None] (or_introl eq_refl) eq_refl))
             | reflexivity]
  end.
Defined.


End V2Counter.

Module V2ShapeProps.
Import V2 V2Run.

Lemma own_ctx_cancel (x : error) (c : context.cancelCtx) :
  own_ctx c → traced x = true →
  own_ctx (context.CancelCauseFunc (Some x) c).
Proof.
  intros [-> | (He & Hc)] Hx; unfold context.CancelCauseFunc, context.cancel.
  - right. simpl. split; [done |]. by exists x.
  - rewrite He. by right.
Qed.

Lemma own_getContext (gr : Group) :
  (∀ c, ctx gr = Some c → own_ctx c) →
  ∀ c, ctx (getContext gr) = Some c → own_ctx c.
Proof.
  intros H c. unfold getContext. destruct (ctx gr) eqn:E.
  - rewrite E. apply H.
  - simpl. intros [= <-]. by left.
Qed.

Lemma own_cancel (x : error) (gr gr' : Group) :
  traced x = true →
  (∀ c, ctx gr = Some c → own_ctx c) →
  cancel x gr = Ok gr' →
  ∀ c, ctx gr' = Some c → own_ctx c.
Proof.
  intros Hx H. unfold cancel. destruct (ctx gr) as [c0|]; [| done].
  intros [= <-] c [= <-]. apply own_ctx_cancel; auto.
Qed.

Lemma own_after_task (p : goroutine) (r : option error) (gr gr' : Group) :
  (∀ c, ctx gr = Some c → own_ctx c) →
  after_task p r gr = Ok gr' →
  ∀ c, ctx gr' = Some c → own_ctx c.
Proof.
  intros H. destruct p, r; simpl; try done;
    try (by intros [= <-]); by apply own_cancel.
Qed.

(** What a run keeps when the parent is [context.Background()]. *)
Lemma step_own (e : event) (w w' : World) :
  parent w = None →
  (∀ c, ctx (gr w) = Some c → own_ctx c) →
  (∀ x e, x ∈ out w → x = Some e → traced e = true) →
  step e w = Ok w' →
  parent w' = None ∧
  (∀ c, ctx (gr w') = Some c → own_ctx c) ∧
  (∀ x e, x ∈ out w' → x = Some e → traced e = true).
Proof.
  intros Hp Hc Ho Hs.
  pose proof (own_getContext _ Hc) as Hgc.
  destruct e; simpl in Hs.
  - unfold Cancel in Hs. inv_res. subst w'. simpl. split_and!; [done | | done].
    eapply own_cancel; [| exact Hgc | done]. done.
  - unfold Close, Cancel in Hs. inv_res. subst w'. simpl. split_and!; [done | | done].
    eapply own_cancel; [| exact Hgc | done]. done.
  - by inv_res; subst w'.
  - by inv_res; subst w'.
  - by inv_res; subst w'.
  - by inv_res; subst w'.
  - by inv_res; subst w'.
  - by inv_res; subst w'.
  - unfold wait_return in Hs. destruct (waiters w); [done |].
    unfold Wait_return, Cause in Hs.
    destruct (ctx (gr w)) as [c|] eqn:E; [| by inv_res].
    inv_res. subst. simpl. rewrite E. split_and!; [done | done |].
    intros x e [-> | Hin]%elem_of_cons Hx; [| by eapply Ho].
    destruct (Hc c eq_refl) as [-> | (_ & e' & He' & Ht)]; [done |].
    unfold context.Cause in Hx. congruence.
  - unfold task_return in Hs. destruct (procs w !! id); [| done].
    inv_res. subst w'. simpl. split_and!; [done | | done].
    match goal with H : wg_Done _ = _ |- _ => apply V2Props.wg_Done_ctx in H;
      rewrite H end.
    match goal with H : after_task _ _ _ = Ok _ |- _ =>
      exact (own_after_task _ _ _ _ Hc H) end.
  - unfold timer_fire in Hs. destruct (procs w !! id) as [[]|]; try done.
    inv_res. subst w'. simpl. split_and!; [done | | done].
    eapply own_cancel; [| exact Hc | done]. done.
  - unfold timer_ctx_done in Hs. destruct (procs w !! id) as [[]|]; try done.
    destruct (ctx (gr w)) as [c|] eqn:E; [| done].
    destruct (context.done c); [| done]. inv_res. subst w'. simpl.
    rewrite E. by split_and!.
  - unfold parent_cancel in Hs. by rewrite Hp in Hs.
Qed.

Lemma run_own (t : list event) (w w' : World) :
  parent w = None →
  (∀ c, ctx (gr w) = Some c → own_ctx c) →
  (∀ x e, x ∈ out w → x = Some e → traced e = true) →
  run t w = Ok w' →
  parent w' = None ∧
  (∀ c, ctx (gr w') = Some c → own_ctx c) ∧
  (∀ x e, x ∈ out w' → x = Some e → traced e = true).
Proof.
  revert w. induction t as [|e t IH]; intros w Hp Hc Ho Hr; simpl in Hr.
  - inv_res. by subst.
  - inv_res. destruct (step_own _ _ _ Hp Hc Ho H) as (? & ? & ?). by eapply IH.
Qed.

(** What a run of plain tasks keeps. *)
Lemma step_plain (e : event) (w w' : World) :
  plain_event e = true →
  (ctx (gr w) = None ∨ ctx (gr w) = Some context.fresh) →
  (∀ id p, procs w !! id = Some p → p = plain) →
  (∀ x, x ∈ out w → x = None) →
  step e w = Ok w' →
  (ctx (gr w') = None ∨ ctx (gr w') = Some context.fresh) ∧
  (∀ id p, procs w' !! id = Some p → p = plain) ∧
  (∀ x, x ∈ out w' → x = None).
Proof.
  intros He Hc Hp Ho Hs.
  assert (ctx (getContext (gr w)) = Some context.fresh) as Hgc.
  { unfold getContext. destruct Hc as [E | E]; by rewrite E. }
  destruct e; try done; simpl in Hs.
  - inv_res. subst w'. simpl. split_and!; [by right | | done].
    intros id p [[_ <-] | [_ Hl]]%lookup_insert_Some; [done | by eapply Hp].
  - inv_res. subst w'. simpl. split_and!; [by right | done | done].
  - unfold wait_return in Hs. destruct (waiters w); [done |].
    unfold Wait_return, Cause in Hs.
    destruct Hc as [E | E]; rewrite E in Hs; [by inv_res |].
    inv_res. subst. simpl. split_and!; [by right | done |].
    intros x [-> | Hin]%elem_of_cons; [done | by apply Ho].
  - unfold task_return in Hs. destruct (procs w !! id) as [p|] eqn:El; [| done].
    rewrite (Hp _ _ El) in Hs. simpl in Hs. inv_res. subst w'. simpl.
    match goal with H : wg_Done _ = _ |- _ => apply V2Props.wg_Done_ctx in H;
      rewrite H end.
    split_and!; [done | | done].
    intros j q [_ Hl]%lookup_delete_Some. by eapply Hp.
Qed.

Lemma run_plain (t : list event) (w w' : World) :
  forallb plain_event t = true →
  (ctx (gr w) = None ∨ ctx (gr w) = Some context.fresh) →
  (∀ id p, procs w !! id = Some p → p = plain) →
  (∀ x, x ∈ out w → x = None) →
  run t w = Ok w' →
  (ctx (gr w') = None ∨ ctx (gr w') = Some context.fresh) ∧
  (∀ id p, procs w' !! id = Some p → p = plain) ∧
  (∀ x, x ∈ out w' → x = None).
Proof.
  revert w. induction t as [|e t IH]; intros w Ht Hc Hp Ho Hr; simpl in *.
  - inv_res. by subst.
  - apply andb_true_iff in Ht as [He Ht]. inv_res.
    destruct (step_plain _ _ _ He Hc Hp Ho H) as (? & ? & ?). by eapply IH.
Qed.

(** The events of the Group never reach its parent. *)
Lemma run_parent (t : list event) (w w' : World) :
  forallb own_event t = true → run t w = Ok w' → parent w' = parent w.
Proof.
  revert w. induction t as [|e t IH]; intros w Ht Hr; simpl in *.
  - inv_res. by subst.
  - apply andb_true_iff in Ht as [He Ht]. inv_res.
    rewrite (IH _ Ht Hr). clear IH Hr Ht.
    destruct e; try done; simpl in H.
    + by inv_res; subst.
    + by inv_res; subst.
    + by inv_res; subst.
    + by inv_res; subst.
    + by inv_res; subst.
    + by inv_res; subst.
    + by inv_res; subst.
    + by inv_res; subst.
    + unfold wait_return in H. destruct (waiters w); [done |]. by inv_res; subst.
    + unfold task_return in H. destruct (procs w !! id); [| done]. by inv_res; subst.
    + unfold timer_fire in H. destruct (procs w !! id) as [[]|]; try done.
      by inv_res; subst.
    + unfold timer_ctx_done in H. destruct (procs w !! id) as [[]|]; try done.
      destruct (ctx (gr w)); [| done]. destruct (context.done _); [| done].
      by inv_res; subst.
Qed.

End V2ShapeProps.

Module V2Context.
Import V2 V2Run.

(** X3.  v2, a Group whose parent is [context.Background()] (the zero
    value, or [New(context.Background())]): at every point of a run its
    context is either not done, or done with [Err()] equal to
    [context.Canceled] (also when the timer of [SetTimeout] cancelled it)
    and a cause built by [stacktrace.NewError]; and every error that a
    call of [Wait] has returned is nil or such a stack-carrying error. *)
Theorem background_context_shape :
  ∀ (w0 w' : World) (t : list event),
    w0 = zero ∨ w0 = New None →
    run t w0 = Ok w' →
    (∀ c, ctx (gr w') = Some c → own_ctx c) ∧
    (∀ x, x ∈ out w' → x = None ∨ ∃ e, x = Some e ∧ traced e = true).
Proof.
  intros w0 w' t H0 Hr.
  assert (parent w0 = None ∧ (∀ c, ctx (gr w0) = Some c → own_ctx c) ∧
          out w0 = []) as (Hp & Hc & Ho).
  { destruct H0 as [-> | ->]; split_and!; try done.
    simpl. intros c [= <-]. by left. }
  destruct (V2ShapeProps.run_own t w0 w' Hp Hc) as (_ & Hc' & Ho'); [| done |].
  { rewrite Ho. by intros x e ?%elem_of_nil. }
  split; [done |]. intros [e|] Hx; [right | by left].
  exists e. split; [done |]. by eapply Ho'.
Qed.

(** The timer of [SetTimeout] fires on a zero Group: [Err()] is
    [context.Canceled]. *)
Lemma background_context_shape_witness :
  ∃ w' c, run [CallSetTimeout [Frame "main.go" 7 "main"]; TimerFire 0;
               WaitEnter; WaitReturn] zero = Ok w' ∧
          ctx (gr w') = Some c ∧
          context.Err c = Some context.Canceled ∧
          own_ctx c.
Proof.
  do 2 eexists. split; [reflexivity |]. split; [reflexivity |].
  split; [reflexivity |].
  lazymatch goal with
  | |- own_ctx ?c =>
      exact (proj1 (background_context_shape zero _
                      [CallSetTimeout [Frame "main.go" 7 "main"]; TimerFire 0;
                       WaitEnter; WaitReturn] (or_introl eq_refl) eq_refl)
               c eq_refl)
  end.
Defined.

(** X4.  v2: a run from the zero value or from
    [New(context.Background())] that only calls [Go] and [Wait], with the
    tasks returning in any order, never cancels the context, and every
    call of [Wait] in it returns nil. *)
Theorem plain_tasks_never_cancel :
  ∀ (w0 w' : World) (t : list event),
    w0 = zero ∨ w0 = New None →
    forallb plain_event t = true →
    run t w0 = Ok w' →
    cancelled (gr w') = false ∧
    recorded (gr w') = None ∧
    (∀ x, x ∈ out w' → x = None).
Proof.
  intros w0 w' t H0 Ht Hr.
  destruct (V2ShapeProps.run_plain t w0 w' Ht) as (Hc & _ & Ho); [| | | done |].
  - destruct H0 as [-> | ->]; [by left | by right].
  - destruct H0 as [-> | ->]; intros id p Hl; simpl in Hl;
      by rewrite lookup_empty in Hl.
  - destruct H0 as [-> | ->]; by intros x ?%elem_of_nil.
  - unfold cancelled, recorded. by destruct Hc as [-> | ->].
Qed.

(** The example of the package: two plain tasks, then [Wait]. *)
Lemma plain_tasks_never_cancel_witness :
  ∃ w', run [CallGo; CallGo; WaitEnter; TaskReturn 1 None; TaskReturn 0 None;
             WaitReturn] zero = Ok w' ∧
        out w' = [None] ∧
        cancelled (gr w') = false.
Proof.
  eexists. split; [reflexivity |]. split; [reflexivity |].
  exact (proj1 (plain_tasks_never_cancel zero _
                  [CallGo; CallGo; WaitEnter; TaskReturn 1 None; TaskReturn 0 None;
                   WaitReturn] (or_introl eq_refl) eq_refl eq_refl)).
Defined.

(** X5.  v2: on any Group, zero value included, [Cancel] and [Close]
    complete, leave the context done and the counter as it was, and
    every [Cancel] or [Close] after that leaves the whole Group
    unchanged: a deferred [Close] is always safe. *)
Theorem cancel_releases_once :
  ∀ (gr0 : Group) (c : option error) (s : callers),
    ∃ gr1, Cancel c s gr0 = Ok gr1 ∧
           cancelled gr1 = true ∧
           g gr1 = g gr0 ∧
           (∀ c' s', Cancel c' s' gr1 = Ok gr1) ∧
           (∀ s', Close s' gr1 = Ok gr1) ∧
           (∀ s', ∃ gr2, Close s' gr0 = Ok gr2 ∧ cancelled gr2 = true ∧
                         ∀ c' s'', Cancel c' s'' gr2 = Ok gr2).
Proof.
  intros gr0 c s.
  destruct (V2RunProps.Cancel_total c s gr0) as (gr1 & Hc & Hg & _ & Hd).
  exists gr1. split_and!; [done | done | done | | |].
  - intros c' s'. by apply V2Props.Cancel_frozen.
  - intros s'. by apply V2Props.Cancel_frozen.
  - intros s'. unfold Close.
    destruct (V2RunProps.Cancel_total (Some (stacktrace.NewError ErrClosed s'))
                (Close_frame :: s') gr0) as (gr2 & Hc2 & _ & _ & Hd2).
    exists gr2. split_and!; [done | done |].
    intros c' s''. by apply V2Props.Cancel_frozen.
Qed.

(** X6.  v2 and the parent context.  A Group made by [New] from a
    parent that is already done is born cancelled with the parent's
    cause.  When the parent is cancelled while the Group's context is not
    done, the recorded cause is the parent's cause as it is, without call
    site, whatever happens afterwards, and [Wait] returns it.  No event of
    the Group itself ever changes the parent. *)
Theorem parent_cancellation :
  (∀ (p : context.cancelCtx) (e : error),
      context.err p = Some e →
      cancelled (gr (New (Some p))) = true ∧
      recorded (gr (New (Some p))) = Some (default e (context.cause p))) ∧
  (∀ (w w' : World) (p : context.cancelCtx) (e cause : error) (t : list event),
      parent w = Some p →
      context.done p = false →
      is_Some (ctx (gr w)) →
      cancelled (gr w) = false →
      run (ParentCancel e cause :: t) w = Ok w' →
      recorded (gr w') = Some cause ∧
      (g (gr w') = 0 → Wait (gr w') = Ok (gr w', Some cause))) ∧
  (∀ (w w' : World) (t : list event),
      forallb own_event t = true →
      run t w = Ok w' →
      parent w' = parent w).
Proof.
  split_and!.
  - intros p e He. unfold cancelled, recorded. simpl.
    unfold context.propagate, context.done. rewrite He. simpl. split; [done |].
    done.
  - intros w w' p e cause t Hp Hd [c Hc] Hn Hr. simpl in Hr.
    unfold parent_cancel in Hr. rewrite Hp in Hr. simpl in Hr.
    assert (context.done c = false) as Hdc
      by (unfold cancelled in Hn; by rewrite Hc in Hn).
    rewrite Hc in Hr. simpl in Hr.
    rewrite (contextProps.cancel_not_done _ _ _ Hd) in Hr.
    unfold context.propagate in Hr. simpl in Hr.
    rewrite (contextProps.cancel_not_done _ _ _ Hdc) in Hr. simpl in Hr.
    apply V2Props.run_frozen in Hr; [| done]. simpl in Hr.
    split; [unfold recorded; by rewrite Hr |].
    intros Hg. by rewrite (FirstCancel.V2_Wait_ctx _ _ Hr Hg).
  - intros w w' t. apply V2ShapeProps.run_parent.
Qed.

(** A parent past its deadline; the test "cancel parent" followed by a
    late [Cancel]; a [Close] under a live parent. *)
Lemma parent_cancellation_witness :
  (cancelled (gr (New (Some {| context.err := Some context.DeadlineExceeded;
                               context.cause := Some context.DeadlineExceeded |})))
     = true) ∧
  (∃ w', run [CallGo; ParentCancel context.Canceled context.Canceled;
              CallCancel (Some (errorString "late")) []; TaskReturn 0 None]
           (New (Some context.fresh)) = Ok w' ∧
         Wait (gr w') = Ok (gr w', Some context.Canceled)) ∧
  (∃ w', run [CallClose []] (New (Some context.fresh)) = Ok w' ∧
         parent w' = Some context.fresh).
Proof.
  destruct parent_cancellation as (H1 & H2 & H3). split_and!.
  - exact (proj1 (H1 {| context.err := Some context.DeadlineExceeded;
                        context.cause := Some context.DeadlineExceeded |}
                    context.DeadlineExceeded eq_refl)).
  - eexists. split; [reflexivity |].
    lazymatch goal with
    | |- Wait (gr ?a) = _ =>
        exact (proj2 (H2 (Go plain (New (Some context.fresh))) a context.fresh
                        context.Canceled context.Canceled
                        [CallCancel (Some (errorString "late")) []; TaskReturn 0 None]
                        eq_refl eq_refl (mk_is_Some _ _ eq_refl) eq_refl eq_refl)
                 eq_refl)
    end.
  - eexists. split; [reflexivity |].
    lazymatch goal with
    | |- parent ?a = _ =>
        exact (H3 (New (Some context.fresh)) a [CallClose []] eq_refl eq_refl)
    end.
Defined.

End V2Context.

Module V2Final.
Import V2 V2Run.

Lemma cause_cancel (e : error) (x : option error) (c : context.cancelCtx) :
  (context.err c = None → context.cause c = None) →
  context.err (context.cancel e x c) = None →
  context.cause (context.cancel e x c) = None.
Proof.
  intros H. unfold context.cancel. destruct (context.err c) eqn:E; [| done].
  intros E'. congruence.
Qed.

Lemma cause_gr_cancel (x : error) (gr gr' : Group) :
  (∀ c, ctx gr = Some c → context.err c = None → context.cause c = None) →
  cancel x gr = Ok gr' →
  ∀ c, ctx gr' = Some c → context.err c = None → context.cause c = None.
Proof.
  intros H. unfold cancel. destruct (ctx gr) as [c0|]; [| done].
  intros [= <-] c [= <-]. apply cause_cancel. by apply H.
Qed.

Lemma cause_getContext (gr : Group) :
  (∀ c, ctx gr = Some c → context.err c = None → context.cause c = None) →
  ∀ c, ctx (getContext gr) = Some c → context.err c = None → context.cause c = None.
Proof.
  intros H c. unfold getContext. destruct (ctx gr) eqn:E.
  - rewrite E. apply H.
  - simpl. by intros [= <-].
Qed.

(** A context that is not done has no cause, in every world of a run. *)
Lemma step_cause (e : event) (w w' : World) :
  (∀ c, ctx (gr w) = Some c → context.err c = None → context.cause c = None) →
  step e w = Ok w' →
  ∀ c, ctx (gr w') = Some c → context.err c = None → context.cause c = None.
Proof.
  intros Hc Hs. pose proof (cause_getContext _ Hc) as Hgc.
  assert (∀ x g0 g1, (g0 = gr w ∨ g0 = getContext (gr w)) → cancel x g0 = Ok g1 →
            ∀ c, ctx g1 = Some c → context.err c = None → context.cause c = None)
    as Hcan.
  { intros x g0 g1 [-> | ->] Hx;
      [exact (cause_gr_cancel _ _ _ Hc Hx) | exact (cause_gr_cancel _ _ _ Hgc Hx)]. }
  destruct e; simpl in Hs.
  - unfold Cancel in Hs. inv_res. subst w'. simpl. eapply Hcan; [by right | done].
  - unfold Close, Cancel in Hs. inv_res. subst w'. simpl.
    eapply Hcan; [by right | done].
  - by inv_res; subst w'.
  - by inv_res; subst w'.
  - by inv_res; subst w'.
  - by inv_res; subst w'.
  - by inv_res; subst w'.
  - by inv_res; subst w'.
  - unfold wait_return in Hs. destruct (waiters w); [done |]. by inv_res; subst.
  - unfold task_return in Hs. destruct (procs w !! id) as [p|]; [| done].
    inv_res. subst w'. simpl.
    match goal with H : wg_Done _ = _ |- _ => apply V2Props.wg_Done_ctx in H;
      rewrite H end.
    match goal with H : after_task _ _ _ = Ok _ |- _ =>
      destruct p, r; simpl in H; try done;
        first [by injection H as <- | eapply Hcan; [by left | done]] end.
  - unfold timer_fire in Hs. destruct (procs w !! id) as [[]|]; try done.
    inv_res. subst w'. simpl. eapply Hcan; [by left | done].
  - unfold timer_ctx_done in Hs. destruct (procs w !! id) as [[]|]; try done.
    destruct (ctx (gr w)) as [c|] eqn:E; [| done].
    destruct (context.done c); [| done]. inv_res. subst w'. simpl.
    by rewrite E.
  - unfold parent_cancel in Hs. destruct (parent w); [| done].
    inv_res. subst w'. simpl. intros c0.
    destruct (ctx (gr w)) as [c1|] eqn:E; [| done]. simpl. intros [= <-].
    unfold context.propagate.
    destruct (context.err (context.cancel e (Some cause) c));
      [by apply cause_cancel, Hc | by apply Hc].
Qed.

(** A non-nil error returned by [Wait] is the recorded cause from then
    on. *)
Lemma step_final (e : event) (w w' : World) :
  (∀ c, ctx (gr w) = Some c → context.err c = None → context.cause c = None) →
  (∀ x, Some x ∈ out w → cancelled (gr w) = true ∧ recorded (gr w) = Some x) →
  step e w = Ok w' →
  ∀ x, Some x ∈ out w' → cancelled (gr w') = true ∧ recorded (gr w') = Some x.
Proof.
  intros Hc Ho Hs x Hx.
  assert (out w' = out w ∨
          ∃ c, ctx (gr w) = Some c ∧ ctx (gr w') = Some c ∧
               out w' = context.Cause c :: out w) as Hout.
  { destruct e; simpl in Hs.
    - left. unfold Cancel in Hs. inv_res. by subst.
    - left. unfold Close, Cancel in Hs. inv_res. by subst.
    - left. inv_res. by subst.
    - left. inv_res. by subst.
    - left. inv_res. by subst.
    - left. inv_res. by subst.
    - left. inv_res. by subst.
    - left. inv_res. by subst.
    - unfold wait_return in Hs. destruct (waiters w); [done |].
      unfold Wait_return, Cause in Hs.
      destruct (ctx (gr w)) as [c|] eqn:E; [| by inv_res].
      inv_res. subst. simpl. right. exists c. by rewrite E.
    - left. unfold task_return in Hs. destruct (procs w !! id); [| done].
      inv_res. by subst.
    - left. unfold timer_fire in Hs. destruct (procs w !! id) as [[]|]; try done.
      inv_res. by subst.
    - left. unfold timer_ctx_done in Hs.
      destruct (procs w !! id) as [[]|]; try done.
      destruct (ctx (gr w)); [| done]. destruct (context.done _); [| done].
      inv_res. by subst.
    - left. unfold parent_cancel in Hs. destruct (parent w); [| done].
      inv_res. by subst. }
  assert (cancelled (gr w) = true → recorded (gr w) = Some x →
          cancelled (gr w') = true ∧ recorded (gr w') = Some x) as Hkeep.
  { intros Hd Hr. pose proof (V2Props.step_frozen _ _ _ Hd Hs) as Hf.
    unfold cancelled, recorded in *. by rewrite Hf. }
  destruct Hout as [E | (c & E1 & E2 & E)]; rewrite E in Hx.
  - destruct (Ho x Hx). by apply Hkeep.
  - apply elem_of_cons in Hx as [Hx | Hx]; [| destruct (Ho x Hx); by apply Hkeep].
    unfold cancelled, recorded. rewrite E2. simpl. split; [| done].
    destruct (context.done c) eqn:Hd; [done |].
    apply contextProps.done_false in Hd. specialize (Hc c E1 Hd).
    unfold context.Cause in Hx. congruence.
Qed.

Lemma run_final (t : list event) (w w' : World) :
  (∀ c, ctx (gr w) = Some c → context.err c = None → context.cause c = None) →
  (∀ x, Some x ∈ out w → cancelled (gr w) = true ∧ recorded (gr w) = Some x) →
  run t w = Ok w' →
  ∀ x, Some x ∈ out w' → cancelled (gr w') = true ∧ recorded (gr w') = Some x.
Proof.
  revert w. induction t as [|e t IH]; intros w Hc Ho Hr; simpl in Hr.
  - inv_res. by subst.
  - inv_res. eapply IH; [| | done].
    + by eapply step_cause.
    + by eapply step_final.
Qed.

(** X7.  v2: once some call of [Wait] has returned a non-nil error,
    the context is done, that error is the recorded cause for the rest of
    the run, and every later [Wait] that finds the counter at zero
    returns it. *)
Theorem v2_wait_error_is_final :
  ∀ (w0 w' : World) (t : list event) (x : error),
    initial w0 →
    run t w0 = Ok w' →
    Some x ∈ out w' →
    cancelled (gr w') = true ∧
    recorded (gr w') = Some x ∧
    (g (gr w') = 0 → Wait (gr w') = Ok (gr w', Some x)).
Proof.
  intros w0 w' t x H0 Hr Hx.
  assert (cancelled (gr w') = true ∧ recorded (gr w') = Some x) as [Hd Hrec].
  { eapply (run_final t w0); [| | done | done].
    - destruct H0 as [-> | [p ->]]; simpl; [done |]. intros c [= <-].
      destruct p as [p|]; simpl; [| done]. unfold context.propagate.
      destruct (context.err p); [| done]. by apply cause_cancel.
    - destruct H0 as [-> | [p ->]]; by intros y ?%elem_of_nil. }
  split_and!; [done | done |]. intros Hg.
  apply V2Props.cancelled_true in Hd as (c & Hc & _).
  rewrite (FirstCancel.V2_Wait_ctx _ _ Hc Hg). unfold recorded in Hrec.
  rewrite Hc in Hrec. simpl in Hrec. unfold context.Cause in Hrec. by rewrite Hrec.
Qed.

(** A failing [GoCancelOnError] task, a [Wait], then [Close]: a second
    [Wait] still returns the task's error. *)
Lemma v2_wait_error_is_final_witness :
  ∃ w', run [CallGoCancelOnError [Frame "main.go" 4 "main"];
             TaskReturn 0 (Some (errorString "stop"));
             WaitEnter; WaitReturn; CallClose []] zero = Ok w' ∧
        Wait (gr w') =
          Ok (gr w', Some (stError (errorString "stop") [Frame "main.go" 4 "main"])).
Proof.
  eexists. split; [reflexivity |].
  lazymatch goal with
  | |- Wait (gr ?a) = _ =>
      exact (proj2 (proj2 (v2_wait_error_is_final zero a
                             [CallGoCancelOnError [Frame "main.go" 4 "main"];
                              TaskReturn 0 (Some (errorString "stop"));
                              WaitEnter; WaitReturn; CallClose []]
                             (stError (errorString "stop") [Frame "main.go" 4 "main"])
                             (or_introl eq_refl) eq_refl (list_elem_of_here _ _)))
               eq_refl)
  end.
Defined.

End V2Final.

(** ** rungroup (v1) *)

Module V1RunProps.
Import V1 V1Run.

Lemma inv_New (p : option context.cancelCtx) : inv (New p).
Proof.
  unfold inv. simpl. split_and!; [done | done | by eexists | done |].
  by intros x ?%elem_of_nil.
Qed.

Lemma lookup_exit_fresh (w : World) (id : nat) :
  (∀ i, next w ≤ i → procs w !! i = None) →
  ∀ j, next w ≤ j → delete id (procs w) !! j = None.
Proof.
  intros Hf j Hj. destruct (decide (j = id)) as [->|];
    [apply lookup_delete_eq | rewrite lookup_delete_ne by done; by apply Hf].
Qed.

(** The closure of [Go], once its task has returned, completes in every
    world that keeps the bookkeeping, and keeps it. *)
Lemma finish_inv (id : nat) (r : option error) (w : World) :
  inv w → is_Some (procs w !! id) →
  ∃ w', finish id r w = Ok w' ∧ inv w' ∧
        doNotReuse (gr w') = doNotReuse (gr w) ∧
        err (gr w') = (if errOnce (gr w) then err (gr w) else r).
Proof.
  intros (Hg & Hf & [c Hc] & Hd & Ho) Hl.
  pose proof (map_size_ne_0_lookup_2 _ _ Hl) as Hn.
  destruct (wg (gr w)) as [|n] eqn:Hw; [congruence |].
  assert (size (delete id (procs w)) = n) as Hsz
    by (rewrite map_size_delete_Some by done; lia).
  unfold finish, setResult. rewrite Hc.
  destruct (errOnce (gr w)) eqn:Hb; simpl; unfold wg_Done; simpl; rewrite Hw;
    simpl; eexists; (split; [reflexivity |]); unfold inv; simpl;
    (split; [| done]).
  - split_and!; [done | by apply lookup_exit_fresh | by eexists | |].
    + intros _. specialize (Hd eq_refl). unfold cancelled in *. simpl.
      by rewrite ?Hc in *.
    + intros x Hx. destruct (Ho x Hx) as [_ ->]. done.
  - split_and!; [done | by apply lookup_exit_fresh | by eexists | |].
    + intros _. unfold cancelled. simpl. apply contextProps.done_cancel.
    + intros x Hx. by destruct (Ho x Hx).
Qed.

(** Every step keeps the bookkeeping; only [Go] on a Group marked by
    [Wait] panics; only [Wait] sets the mark. *)
Lemma v1_step_inv (e : event) (w : World) :
  inv w →
  (∀ msg, step e w = Panic msg →
          msg = reuse_panic ∧ is_CallGo e = true ∧ doNotReuse (gr w) = true) ∧
  (∀ w', step e w = Ok w' →
         inv w' ∧
         (is_WaitEnter e = false → doNotReuse (gr w') = doNotReuse (gr w))).
Proof.
  intros Hi. pose proof Hi as (Hg & Hf & Hsome & Hd & Ho).
  pose proof Hsome as [c Hc].
  destruct e; simpl.
  - unfold Cancel, checkInitialized, setResult. rewrite Hc. simpl.
    destruct (errOnce (gr w)) eqn:Hb; (split; [done |]); intros w' [= <-].
    + split; [| done]. unfold inv. simpl. split_and!; rewrite ?Hb; auto.
    + split; [| done]. unfold inv. simpl.
      split_and!; [done | done | first [done | by eexists] | |].
      * intros _. unfold cancelled. simpl. apply contextProps.done_cancel.
      * intros x Hx. by destruct (Ho x Hx).
  - unfold Go, checkInitialized, checkReuse. rewrite Hc. simpl.
    destruct (doNotReuse (gr w)) eqn:Hr; simpl.
    + split; [| done]. by intros msg [= <-].
    + split; [done |]. intros w' [= <-]. split; [| done]. unfold inv. simpl.
      split_and!; [| | first [done | by eexists] | |].
      * rewrite map_size_insert_None by (by apply Hf). by rewrite Hg.
      * intros j Hj. rewrite lookup_insert_ne by lia. apply Hf. lia.
      * intros Hb. specialize (Hd Hb). unfold cancelled in *. simpl.
        by rewrite ?Hc in *.
      * done.
  - unfold wait_enter, Wait_enter, checkInitialized. rewrite Hc. simpl.
    split; [done |]. intros w' [= <-]. split; [| done]. unfold inv. simpl.
    split_and!; [done | done | first [done | by eexists] | | done].
    intros Hb. specialize (Hd Hb). unfold cancelled in *. simpl.
    by rewrite ?Hc in *.
  - unfold wait_return. destruct (waiters w); [done |].
    unfold Wait_return, wg_Wait, setResult. rewrite Hc.
    destruct (decide (wg (gr w) = 0)); simpl; [| done].
    destruct (errOnce (gr w)) eqn:Hb; simpl; (split; [done |]);
      intros w' [= <-]; (split; [| done]); unfold inv; simpl.
    + split_and!; [done | done | first [done | by eexists] | by intros _; apply Hd |].
      intros x [-> | Hx]%elem_of_cons; rewrite Hb; [done | by apply Ho].
    + split_and!; [done | done | first [done | by eexists] | |].
      * intros _. unfold cancelled. simpl. apply contextProps.done_cancel.
      * intros x [-> | Hx]%elem_of_cons; [done |]. by destruct (Ho x Hx).
  - unfold task_return. destruct (procs w !! id) as [[]|] eqn:Hl; try done.
    destruct (finish_inv id r w Hi) as (w1 & -> & ? & ? & _); [by rewrite Hl |].
    split; [done |]. by intros w' [= <-].
  - unfold timeout_fire. destruct (procs w !! id) as [[]|] eqn:Hl; try done.
    destruct (finish_inv id (Some context.DeadlineExceeded) w Hi)
      as (w1 & -> & ? & ? & _); [by rewrite Hl |].
    split; [done |]. by intros w' [= <-].
  - unfold timeout_ctx_done. destruct (procs w !! id) as [[]|] eqn:Hl; try done.
    rewrite Hc. destruct (context.Err c) as [e0|]; [| done].
    destruct (finish_inv id (Some e0) w Hi) as (w1 & -> & ? & ? & _);
      [by rewrite Hl |].
    split; [done |]. by intros w' [= <-].
  - unfold parent_cancel. destruct (parent w) as [p|]; [| done].
    split; [done |]. intros w' [= <-]. split; [| done]. unfold inv. simpl.
    rewrite Hc. simpl. split_and!; [done | done | first [done | by eexists] | | done].
    intros Hb. specialize (Hd Hb). unfold cancelled in *. simpl.
    rewrite Hc in Hd. by rewrite contextProps.propagate_done.
Qed.

Lemma v1_inv_initial (w : World) : initial w → inv w.
Proof.
  intros [[p ->] | [p Hp]]; [apply inv_New |].
  unfold NewTimeout, Go in Hp. simpl in Hp. injection Hp as <-.
  unfold inv. simpl. split_and!; [done | | by eexists | done |].
  - intros id Hid. rewrite lookup_insert_ne by lia. apply lookup_empty.
  - by intros x ?%elem_of_nil.
Qed.

Lemma v1_run_inv (t : list event) (w w' : World) :
  inv w → run t w = Ok w' → inv w'.
Proof.
  revert w. induction t as [|e t IH]; intros w Hi Hr; simpl in Hr.
  - inv_res. by subst.
  - inv_res. eapply IH; [| done]. by apply (v1_step_inv e w Hi).
Qed.



End V1RunProps.

Module V1Counter.
Import V1 V1Run.

Lemma v1_Wait_ok_iff (g : Group) :
  is_Some (ctx g) → (is_Ok (Wait g) = true ↔ wg g = 0).
Proof.
  intros [c Hc]. destruct (decide (wg g = 0)) as [Hg|Hg].
  - by rewrite (WaitProps.V1_Wait_spec _ _ Hc Hg).
  - by rewrite (WaitProps.V1_Wait_blocks _ Hg).
Qed.


(** X8.  v1: in every world a run reaches from [New] or [NewTimeout],
    the counter of the wait group is the number of running goroutines
    (the task of [NewTimeout] included), so a call of [Wait] can return
    exactly when none is left. *)
Theorem v1_counter_counts_goroutines :
  ∀ (w0 w' : World) (t : list event),
    initial w0 →
    run t w0 = Ok w' →
    wg (gr w') = size (procs w') ∧
    (is_Ok (Wait (gr w')) = true ↔ procs w' = ∅).
Proof.
  intros w0 w' t H0 Hr.
  destruct (V1RunProps.v1_run_inv t w0 w' (V1RunProps.v1_inv_initial _ H0) Hr)
    as (Hg & _ & Hc & _).
  split; [done |]. by rewrite (v1_Wait_ok_iff _ Hc), Hg, map_size_empty_iff.
Qed.

(** [NewTimeout], one task that returns: the timeout task is still
    counted. *)
Lemma v1_counter_counts_goroutines_witness :
  ∃ w0 w', NewTimeout None = Ok w0 ∧
           run [CallGo; TaskReturn 1 None] w0 = Ok w' ∧
           wg (gr w') = size (procs w') ∧ wg (gr w') = 1.
Proof.
  do 2 eexists. split; [reflexivity |]. split; [reflexivity |].
  split; [| reflexivity].
  lazymatch goal with
  | |- wg (gr ?a) = _ =>
      exact (proj1 (v1_counter_counts_goroutines _ a [CallGo; TaskReturn 1 None]
                      (or_intror (ex_intro _ None eq_refl)) eq_refl))
  end.
Defined.



(** X10.  v1: in every world a run reaches from [New] or
    [NewTimeout], a recorded result means a cancelled context, and once
    any call of [Wait] has returned the context is cancelled, also when
    [Go] was never called. *)
Theorem v1_wait_releases_context :
  ∀ (w0 w' : World) (t : list event),
    initial w0 →
    run t w0 = Ok w' →
    (errOnce (gr w') = true → cancelled (gr w') = true) ∧
    (out w' ≠ [] → errOnce (gr w') = true ∧ cancelled (gr w') = true).
Proof.
  intros w0 w' t H0 Hr.
  destruct (V1RunProps.v1_run_inv t w0 w' (V1RunProps.v1_inv_initial _ H0) Hr)
    as (_ & _ & _ & Hd & Ho).
  split; [done |]. intros Hne.
  destruct (out w') as [|x l] eqn:E; [done |].
  destruct (Ho x) as [Hb _]; [by left |]. auto.
Qed.

(** [New] followed by [Wait] alone. *)
Lemma v1_wait_releases_context_witness :
  ∃ w', run [WaitEnter; WaitReturn] (New None) = Ok w' ∧
        cancelled (gr w') = true.
Proof.
  eexists. split; [reflexivity |].
  refine (proj2 (proj2 (v1_wait_releases_context (New None) _ [WaitEnter; WaitReturn]
                         (or_introl (ex_intro _ None eq_refl)) eq_refl) _)).
  discriminate.
Defined.

(** X11.  v1: all calls of [Wait] on a Group return the same value,
    the recorded result, whatever happens between them. *)
Theorem v1_waits_agree :
  ∀ (w0 w' : World) (t : list event) (x y : option error),
    initial w0 →
    run t w0 = Ok w' →
    x ∈ out w' → y ∈ out w' →
    x = err (gr w') ∧ x = y.
Proof.
  intros w0 w' t x y H0 Hr Hx Hy.
  destruct (V1RunProps.v1_run_inv t w0 w' (V1RunProps.v1_inv_initial _ H0) Hr)
    as (_ & _ & _ & _ & Ho).
  destruct (Ho x Hx) as [_ ->], (Ho y Hy) as [_ ->]. done.
Qed.

(** Two callers wait; the task fails; [Cancel()] between the two
    returns. *)
Lemma v1_waits_agree_witness :
  ∃ w', run [CallGo; WaitEnter; WaitEnter;
             TaskReturn 0 (Some (errorString "failed"));
             WaitReturn; CallCancel; WaitReturn] (New None) = Ok w' ∧
        out w' = [Some (errorString "failed"); Some (errorString "failed")] ∧
        Some (errorString "failed") = err (gr w').
Proof.
  eexists. split; [reflexivity |]. split; [reflexivity |].
  lazymatch goal with
  | |- _ = err (gr ?a) =>
      exact (proj1 (v1_waits_agree (New None) a
                      [CallGo; WaitEnter; WaitEnter;
                       TaskReturn 0 (Some (errorString "failed"));
                       WaitReturn; CallCancel; WaitReturn]
                      (Some (errorString "failed")) (Some (errorString "failed"))
                      (or_introl (ex_intro _ None eq_refl)) eq_refl
                      (list_elem_of_here _ _)
                      (list_elem_of_further _ _ _ (list_elem_of_here _ _))))
  end.
Defined.

End V1Counter.

Module V1Result.
Import V1 V1Run.

(** Calls of [Wait] and cancellations of the parent never record an
    error. *)
Lemma run_idle (t : list event) (w w' : World) :
  forallb idle_event t = true →
  err (gr w) = None →
  run t w = Ok w' →
  err (gr w') = None.
Proof.
  revert w. induction t as [|e t IH]; intros w Ht He Hr; simpl in *.
  - inv_res. by subst.
  - apply andb_true_iff in Ht as [Hi Ht]. inv_res.
    eapply IH; [done | | done]. clear IH Hr Ht.
    destruct e; try done; simpl in H.
    + unfold wait_enter, Wait_enter in H. inv_res. by subst.
    + unfold wait_return in H. destruct (waiters w); [done |].
      unfold Wait_return in H. inv_res. subst. simpl.
      match goal with H : setResult _ _ = _ |- _ =>
        apply V1Props.setResult_spec in H; destruct H as (_ & _ & _ & _ & -> & _) end.
      by destruct (errOnce (gr w)).
    + unfold parent_cancel in H. destruct (parent w); [| done]. inv_res. by subst.
Qed.

(** X12.  v1: when a task returns on a Group with no result yet, the
    value it returned, nil included, is the result for the rest of the
    run, and a [Wait] that finds the counter at zero returns it. *)
Theorem v1_first_return_decides :
  ∀ (w w' : World) (id : nat) (r : option error) (t : list event),
    procs w !! id = Some task →
    is_Some (ctx (gr w)) →
    errOnce (gr w) = false →
    run (TaskReturn id r :: t) w = Ok w' →
    err (gr w') = r ∧
    (wg (gr w') = 0 → snd <$> Wait (gr w') = Ok r).
Proof.
  intros w w' id r t Hp Hc Ho Hr. simpl in Hr. unfold task_return in Hr.
  rewrite Hp in Hr. inv_res.
  match goal with H : finish _ _ _ = _ |- _ =>
    apply V1Props.finish_spec in H; destruct H as (Ho1 & _ & _ & Hc1 & He1 & _) end.
  rewrite Ho in He1.
  destruct (V1Props.run_keeps _ _ _ Hr) as (H1 & _ & H3).
  destruct (H1 Ho1) as [Ho' He']. split; [congruence |].
  intros Hg. rewrite <- He1, <- He'. apply FirstCancel.V1_Wait_recorded; auto.
Qed.

(** A task returns nil before another fails: [Wait] returns nil. *)
Lemma v1_first_return_decides_witness :
  ∃ w0 w', run [CallGo; CallGo] (New None) = Ok w0 ∧
           run [TaskReturn 1 None; TaskReturn 0 (Some (errorString "task failed"))]
             w0 = Ok w' ∧
           snd <$> Wait (gr w') = Ok None.
Proof.
  eexists.
  lazymatch goal with
  | |- ∃ w', run _ _ = Ok ?a ∧ _ =>
      assert (run [CallGo; CallGo] (New None) = Ok a) as E by reflexivity;
      eexists; split; [exact E |]; split; [reflexivity |];
      lazymatch goal with
      | |- _ <$> Wait (gr ?b) = _ =>
          exact (proj2 (v1_first_return_decides a b 1 None
                          [TaskReturn 0 (Some (errorString "task failed"))]
                          eq_refl (mk_is_Some _ _ eq_refl) eq_refl eq_refl) eq_refl)
      end
  end.
Defined.

(** X13.  v1 and the parent context.  In a run from [New] that only
    cancels the parent and calls [Wait], no error is recorded and every
    [Wait] returns nil.  On a Group with the task of [NewTimeout] and no
    result yet, when the parent is cancelled with error [e] the task can
    return, and it records [e]. *)
Theorem v1_parent_cancellation :
  (∀ (p : option context.cancelCtx) (t : list event) (w' : World),
      forallb idle_event t = true →
      run t (New p) = Ok w' →
      err (gr w') = None ∧ ∀ x, x ∈ out w' → x = None) ∧
  (∀ (w : World) (id : nat) (p c : context.cancelCtx) (e cause : error),
      procs w !! id = Some deadline →
      parent w = Some p →
      context.done p = false →
      ctx (gr w) = Some c →
      context.done c = false →
      errOnce (gr w) = false →
      wg (gr w) ≠ 0 →
      ∃ w', run [ParentCancel e cause; TimeoutCtxDone id] w = Ok w' ∧
            errOnce (gr w') = true ∧
            err (gr w') = Some e).
Proof.
  split.
  - intros p t w' Ht Hr.
    pose proof (run_idle t (New p) w' Ht eq_refl Hr) as He.
    split; [done |]. intros x Hx.
    destruct (V1RunProps.v1_run_inv t (New p) w' (V1RunProps.inv_New p) Hr)
      as (_ & _ & _ & _ & Ho).
    destruct (Ho x Hx) as [_ ->]. done.
  - intros w id p c e cause Hl Hp Hdp Hc Hdc Ho Hg. simpl.
    unfold parent_cancel. rewrite Hp. simpl.
    unfold timeout_ctx_done. simpl. rewrite Hl, Hc. simpl.
    rewrite (contextProps.cancel_not_done _ _ _ Hdp).
    unfold context.propagate. simpl.
    rewrite (contextProps.cancel_not_done _ _ _ Hdc). simpl.
    unfold finish, setResult. simpl. rewrite Ho. simpl.
    unfold wg_Done. simpl. destruct (wg (gr w)); [done |]. simpl.
    by eexists.
Qed.

(** A cancelled parent and no task; a cancelled parent under
    [NewTimeout]. *)
Lemma v1_parent_cancellation_witness :
  (∃ w', run [ParentCancel context.Canceled context.Canceled; WaitEnter; WaitReturn]
           (New (Some context.fresh)) = Ok w' ∧
         cancelled (gr w') = true ∧
         out w' = [None] ∧
         err (gr w') = None) ∧
  (∃ w0 w', NewTimeout (Some context.fresh) = Ok w0 ∧
            run [ParentCancel context.Canceled context.Canceled; TimeoutCtxDone 0]
              w0 = Ok w' ∧
            err (gr w') = Some context.Canceled).
Proof.
  destruct v1_parent_cancellation as [H1 H2]. split.
  - eexists. split; [reflexivity |]. split; [reflexivity |]. split; [reflexivity |].
    lazymatch goal with
    | |- err (gr ?a) = _ =>
        exact (proj1 (H1 (Some context.fresh)
                        [ParentCancel context.Canceled context.Canceled;
                         WaitEnter; WaitReturn] a eq_refl eq_refl))
    end.
  - eexists.
    lazymatch goal with
    | |- ∃ w', NewTimeout _ = Ok ?a ∧ _ =>
        assert (NewTimeout (Some context.fresh) = Ok a) as E by reflexivity;
        destruct (H2 a 0 context.fresh context.fresh context.Canceled
                    context.Canceled eq_refl eq_refl eq_refl eq_refl eq_refl
                    eq_refl ltac:(done)) as (w' & Hr & _ & He);
        exists w'; split_and!; [exact E | exact Hr | exact He]
    end.
Defined.

End V1Result.
